(** * Agenda items and lists of speakers of OpenSlides

    A shallow embedding of [openslides/agenda/models.py]: the agenda tree
    ([Item]) with its validation, its titles, its numbering and its deletion
    policy, and the list of speakers of an item ([Speaker],
    [SpeakerManager]) with the countdown calls it triggers.

    Database tables are lists of rows.  Django and django-mptt calls are
    given by the small relational model written next to each of them. *)

From Stdlib Require Import List ZArith Bool String Lia Arith DecimalString.
From Stdlib Require Import Sorted Permutation DecimalZ.
Import ListNotations.

Open Scope Z_scope.

(* ================================================================== *)
(** * Part I: definitions *)
(* ================================================================== *)

Module Utils.

(** Python's [str(n)] and ['%d' % n] on an integer. *)
Definition str (z : Z) : string := NilZero.string_of_int (Z.to_int z).

Definition roman_numeral_map : list (nat * string) :=
  [ (1000, "M"); (900, "CM"); (500, "D"); (400, "CD"); (100, "C");
    (90, "XC"); (50, "L"); (40, "XL"); (10, "X"); (9, "IX"); (5, "V");
    (4, "IV"); (1, "I") ]%nat%string.

Fixpoint to_roman_loop (fuel n : nat) (table : list (nat * string)) : string :=
  match fuel with
  | O => EmptyString
  | S fuel' =>
      match table with
      | [] => EmptyString
      | (value, numeral) :: rest =>
          if (value <=? n)%nat
          then (numeral ++ to_roman_loop fuel' (n - value) table)%string
          else to_roman_loop fuel' n rest
      end
  end.

(** Modelled from the spec: [openslides.utils.utils.to_roman] is imported by
    the models but is not part of the sources at hand.  The spec asks for the
    standard subtractive-notation roman numeral of a positive integer, with no
    upper bound; what it yields on an integer below 1 is left open there (the
    empty string here).  Every step of the loop either lowers [n] or shortens
    the table, so [n + 13] steps are enough. *)
Definition to_roman (number : Z) : string :=
  let n := Z.to_nat number in
  to_roman_loop (n + 13) n roman_numeral_map.

(** ** Query set helpers *)

Section OrderBy.
Context {A : Type} (leb : A -> A -> bool).

Fixpoint insert_row (x : A) (l : list A) : list A :=
  match l with
  | [] => [x]
  | y :: t => if leb x y then x :: l else y :: insert_row x t
  end.

(** [ORDER BY]: rows with equal keys stay in the order of the table. *)
Definition order_by (l : list A) : list A := fold_right insert_row [] l.

(** Every row is before, in the sense of [leb], all the rows after it. *)
Definition ordered (l : list A) : Prop :=
  StronglySorted (fun a b => leb a b = true) l.

End OrderBy.

(** Ascending order on a nullable column, NULL first. *)
Definition nullable_leb (a b : option Z) : bool :=
  match a, b with
  | None, _ => true
  | Some _, None => false
  | Some x, Some y => x <=? y
  end.

Definition is_none {A : Type} (o : option A) : bool :=
  match o with None => true | Some _ => false end.

Definition option_nat_eqb (a b : option nat) : bool :=
  match a, b with
  | None, None => true
  | Some x, Some y => (x =? y)%nat
  | _, _ => false
  end.

(** The three outcomes of [QuerySet.get()]. *)
Inductive get_result (A : Type) : Type :=
| Got (row : A)
| DoesNotExist
| MultipleObjects.
Arguments Got {A} row.
Arguments DoesNotExist {A}.
Arguments MultipleObjects {A}.

Definition queryset_get {A : Type} (rows : list A) : get_result A :=
  match rows with
  | [] => DoesNotExist
  | [r] => Got r
  | _ :: _ :: _ => MultipleObjects
  end.

(** [aggregate(Max(column))]: NULL values are skipped, and the result is NULL
    when no value is left. *)
Fixpoint aggregate_max (column : list (option Z)) : option Z :=
  match column with
  | [] => None
  | None :: rest => aggregate_max rest
  | Some v :: rest =>
      match aggregate_max rest with
      | None => Some v
      | Some m => Some (Z.max v m)
      end
  end.

(** Python's [value or default] on an optional integer: [None] and [0] are
    both falsy. *)
Definition py_or (value : option Z) (default : Z) : Z :=
  match value with
  | None => default
  | Some v => if v =? 0 then default else v
  end.

End Utils.

(* ------------------------------------------------------------------ *)
(** ** Agenda items *)

Module Agenda.
Import Utils.

Inductive item_type : Type := AGENDA_ITEM | ORGANIZATIONAL_ITEM.

Definition item_type_eqb (a b : item_type) : bool :=
  match a, b with
  | AGENDA_ITEM, AGENDA_ITEM => true
  | ORGANIZATIONAL_ITEM, ORGANIZATIONAL_ITEM => true
  | _, _ => false
  end.

(** A row of the item table.  [parent] holds the primary key of the parent
    row.  The fields that no function below reads ([text], [comment],
    [duration], the generic relation, the tags) are left out. *)
Record Item : Type := mkItem {
  id : nat;
  item_number : string;
  title : string;
  closed : bool;
  type : item_type;
  parent : option nat;
  weight : Z;
  speaker_list_closed : bool
}.

(** The item table.  django-mptt keeps a tree ordering index on the rows
    ([tree_id], [lft], [rght]) and its managers return rows in that order.
    The table is held here as the list of its rows in index order; the tree
    methods used by the models only read the order this induces among the
    rows that share a parent. *)
Definition ItemTable : Type := list Item.

Definition objects_get (pk : nat) (db : ItemTable) : option Item :=
  find (fun r => (id r =? pk)%nat) db.

Definition children_of (p : option nat) (db : ItemTable) : list Item :=
  filter (fun r => option_nat_eqb (parent r) p) db.

(** [self.get_children()] *)
Definition get_children (self : Item) (db : ItemTable) : list Item :=
  children_of (Some (id self)) db.

(** [self.is_root_node()] *)
Definition is_root_node (self : Item) : bool := is_none (parent self).

Fixpoint previous_in (pk : nat) (prev : option Item) (l : list Item)
  : option Item :=
  match l with
  | [] => None
  | r :: t => if (id r =? pk)%nat then prev else previous_in pk (Some r) t
  end.

(** [self.get_previous_sibling()]: the row just before [self] among the rows
    with the same parent, in index order. *)
Definition get_previous_sibling (self : Item) (db : ItemTable) : option Item :=
  previous_in (id self) None (children_of (parent self) db).

(** The [while prev_sibling is not None] loop of [_calc_sibling_no];
    [None] when the fuel is used up before the loop ends. *)
Fixpoint sibling_loop (fuel : nat) (db : ItemTable)
  (prev_sibling : option Item) (sibling_no : Z) : option Z :=
  match prev_sibling with
  | None => Some sibling_no
  | Some p =>
      match fuel with
      | O => None
      | S fuel' =>
          sibling_loop fuel' db (get_previous_sibling p db)
            (if item_type_eqb (type p) AGENDA_ITEM
             then sibling_no + 1 else sibling_no)
      end
  end.

Definition _calc_sibling_no (self : Item) (db : ItemTable) : option Z :=
  match sibling_loop (List.length db) db (get_previous_sibling self db) 0 with
  | Some sibling_no => Some (sibling_no + 1)
  | None => None
  end.

(** [calc_item_no], the recursion through [self.parent] bounded by [fuel].
    [numeral_system] is [config['agenda_numeral_system']].  The result is
    [None] when the fuel is used up or a parent row is missing. *)
Fixpoint calc_item_no_rec (fuel : nat) (numeral_system : string)
  (self : Item) (db : ItemTable) : option string :=
  match fuel with
  | O => None
  | S fuel' =>
      match type self with
      | AGENDA_ITEM =>
          if is_root_node self then
            match _calc_sibling_no self db with
            | None => None
            | Some sibling_no =>
                if String.eqb numeral_system "arabic"
                then Some (str sibling_no)
                else Some (to_roman sibling_no)
            end
          else
            match parent self with
            | None => None
            | Some parent_id =>
                match objects_get parent_id db with
                | None => None
                | Some parent_item =>
                    match calc_item_no_rec fuel' numeral_system
                            parent_item db,
                          _calc_sibling_no self db with
                    | Some parent_no, Some sibling_no =>
                        Some (parent_no ++ "." ++ str sibling_no)%string
                    | _, _ => None
                    end
                end
            end
      | ORGANIZATIONAL_ITEM => Some EmptyString
      end
  end.

Definition calc_item_no (numeral_system : string) (self : Item)
  (db : ItemTable) : option string :=
  calc_item_no_rec (List.length db) numeral_system self db.

(** ** Deleting an item *)

Definition set_parent (r : Item) (p : option nat) : Item :=
  {| id := id r; item_number := item_number r; title := title r;
     closed := closed r; type := type r; parent := p; weight := weight r;
     speaker_list_closed := speaker_list_closed r |}.

(** [child.move_to(target)]: the in-memory row after the move.  The place
    that the move gives the row in the ordering index is not modelled: the
    only caller, [delete], recomputes the whole index before it returns. *)
Definition move_to (child : Item) (target : option nat) : Item :=
  set_parent child target.

(** [row.save()]: UPDATE the row with this primary key, INSERT when there is
    none. *)
Fixpoint save (row : Item) (db : ItemTable) : ItemTable :=
  match db with
  | [] => [row]
  | r :: rest =>
      if (id r =? id row)%nat then row :: rest else r :: save row rest
  end.

(** Does [r] reach the row [pk] by following parent links (at most [fuel]
    of them)? *)
Fixpoint descends_from (fuel : nat) (db : ItemTable) (pk : nat) (r : Item)
  : bool :=
  match fuel with
  | O => false
  | S fuel' =>
      match parent r with
      | None => false
      | Some p =>
          (p =? pk)%nat ||
          match objects_get p db with
          | None => false
          | Some parent_item => descends_from fuel' db pk parent_item
          end
      end
  end.

(** [super().delete()], Django's [Model.delete]: removes the row and, the
    parent key being declared without [on_delete] (CASCADE), every row that
    refers to a removed row, that is, every row below it in the tree.  (The
    speakers of the removed items go with them; the speaker table is kept
    apart from the item table here.) *)
Definition model_delete (self : Item) (db : ItemTable) : ItemTable :=
  filter (fun r => negb ((id r =? id self)%nat
                         || descends_from (List.length db) db (id self) r)) db.

(** Order of two rows under [order_insertion_by = ['weight']], rows of equal
    weight by primary key (the order of their creation). *)
Definition insertion_leb (a b : Item) : bool :=
  (weight a <? weight b) || ((weight a =? weight b) && (id a <=? id b)%nat).

(** [Item.objects.rebuild()]: the ordering index is computed again from the
    parent links alone, the rows below each parent (and the roots) by
    [insertion_leb].  On the list of rows: sorting all rows by
    [insertion_leb] puts the rows of every parent in that order. *)
Definition rebuild (db : ItemTable) : ItemTable := order_by insertion_leb db.

Definition delete (self : Item) (with_children : bool) (db : ItemTable)
  : ItemTable :=
  let db1 :=
    if negb with_children
    then fold_left (fun d child => save (move_to child (parent self)) d)
                   (get_children self db) db
    else db in
  let db2 := model_delete self db1 in
  rebuild db2.

(** ** Validation *)

(** The two messages of [clean]: "Agenda items can not be child elements of
    an organizational item." and "Organizational items can not have agenda
    items as child elements." *)
Inductive clean_message : Type :=
| agenda_below_organizational
| organizational_above_agenda.

(** What [clean] may raise: its own [ValidationError], and the
    [DoesNotExist] of reading [self.parent] when the parent key refers to
    no row. *)
Inductive item_exn : Type :=
| ValidationError (msg : clean_message)
| ItemDoesNotExist.

(** [self.get_descendants()]: the rows below [self] in the tree. *)
Definition get_descendants (self : Item) (db : ItemTable) : list Item :=
  filter (descends_from (List.length db) db (id self)) db.

(** [self.clean()].  The second and third conjunct of the first test are
    only evaluated for an agenda item; [super().clean()] does nothing. *)
Definition clean (self : Item) (db : ItemTable) : item_exn + unit :=
  match
    (if item_type_eqb (type self) AGENDA_ITEM then
       match parent self with
       | None => inr false
       | Some parent_id =>
           match objects_get parent_id db with
           | None => inl ItemDoesNotExist
           | Some parent_item =>
               inr (item_type_eqb (type parent_item) ORGANIZATIONAL_ITEM)
           end
       end
     else inr false)
  with
  | inl e => inl e
  | inr true => inl (ValidationError agenda_below_organizational)
  | inr false =>
      if item_type_eqb (type self) ORGANIZATIONAL_ITEM
         && existsb (fun r => item_type_eqb (type r) AGENDA_ITEM)
                    (get_descendants self db)
      then inl (ValidationError organizational_above_agenda)
      else inr tt
  end.

(** ** Titles *)

(** The object of the generic relation, as far as the models use it: each
    of the two methods is [None] when the related model does not have it. *)
Record ContentObject : Type := mkContent {
  get_agenda_title : option string;
  get_agenda_title_supplement : option string
}.

Inductive title_exn : Type := NotImplementedError.

(** Python's truth value of a string. *)
Definition truthy (s : string) : bool := negb (String.eqb s EmptyString).

(** The property [item_no]; [number_prefix] is
    [config['agenda_number_prefix']]. *)
Definition item_no (number_prefix : string) (self : Item) : option string :=
  if truthy (item_number self) then
    if truthy number_prefix
    then Some (number_prefix ++ " " ++ item_number self)%string
    else Some (item_number self)
  else None.

(** [self.get_title()].  The related object is not a field of the row here;
    it is given as [content_object] ([None] when the item has none). *)
Definition get_title (number_prefix : string) (self : Item)
  (content_object : option ContentObject) : title_exn + string :=
  match
    (match content_object with
     | None => inr (title self)
     | Some related =>
         match get_agenda_title related with
         | Some agenda_title => inr agenda_title
         | None => inl NotImplementedError
         end
     end)
  with
  | inl e => inl e
  | inr agenda_title =>
      match item_no number_prefix self with
      | Some number =>
          if truthy number
          then inr (number ++ " " ++ agenda_title)%string
          else inr agenda_title
      | None => inr agenda_title
      end
  end.

(** [self.get_title_supplement()] *)
Definition get_title_supplement (content_object : option ContentObject)
  : title_exn + string :=
  match content_object with
  | None => inr EmptyString
  | Some related =>
      match get_agenda_title_supplement related with
      | Some supplement => inr supplement
      | None => inl NotImplementedError
      end
  end.

End Agenda.

(* ------------------------------------------------------------------ *)
(** ** Vocabulary of the properties of the agenda tree *)

Module AgendaSpec.
Import Utils Agenda.

(** The primary key of the item table. *)
Definition ids_unique (db : ItemTable) : Prop := NoDup (map id db).

(** [has_level db r n]: following parent links from [r] reaches a root row
    in [n] steps.  A row on a cycle of parent links, or with a dangling
    link above it, has no level. *)
Inductive has_level (db : ItemTable) : Item -> nat -> Prop :=
| level_root (r : Item) :
    parent r = None -> has_level db r O
| level_child (r parent_item : Item) (p n : nat) :
    parent r = Some p -> objects_get p db = Some parent_item ->
    has_level db parent_item n -> has_level db r (S n).

(** The table holds a forest: distinct keys, and every row has a level. *)
Definition is_forest (db : ItemTable) : Prop :=
  ids_unique db /\ forall r, In r db -> exists n, has_level db r n.

(** [below db pk r]: the row with key [pk] is above [r] in the tree. *)
Inductive below (db : ItemTable) (pk : nat) : Item -> Prop :=
| below_child (r : Item) :
    parent r = Some pk -> below db pk r
| below_further (r parent_item : Item) (p : nat) :
    parent r = Some p -> objects_get p db = Some parent_item ->
    below db pk parent_item -> below db pk r.

Definition is_agenda_item (r : Item) : bool :=
  item_type_eqb (type r) AGENDA_ITEM.

(** The rows of [l] that come before the row with key [pk]. *)
Fixpoint preceding (pk : nat) (l : list Item) : list Item :=
  match l with
  | [] => []
  | r :: t => if (id r =? pk)%nat then [] else r :: preceding pk t
  end.

(** The position of an item among its siblings: one more than the number of
    agenda items among the siblings before it; organizational items take no
    position. *)
Definition sibling_position (self : Item) (db : ItemTable) : Z :=
  1 + Z.of_nat (List.length
                  (filter is_agenda_item
                     (preceding (id self) (children_of (parent self) db)))).

(** [NumberFormatter.format(position, system)] of the spec. *)
Definition NumberFormatter_format (position : Z) (system : string) : string :=
  if String.eqb system "arabic" then str position else to_roman position.

(** The item number as the spec words it: every level of the number is
    formatted in the configured numeral system. *)
Fixpoint itemNumber_spec (fuel : nat) (system : string) (self : Item)
  (db : ItemTable) : option string :=
  match fuel with
  | O => None
  | S fuel' =>
      match type self with
      | ORGANIZATIONAL_ITEM => Some EmptyString
      | AGENDA_ITEM =>
          let number :=
            NumberFormatter_format (sibling_position self db) system in
          match parent self with
          | None => Some number
          | Some p =>
              match objects_get p db with
              | None => None
              | Some parent_item =>
                  match itemNumber_spec fuel' system parent_item db with
                  | None => None
                  | Some parent_no => Some (parent_no ++ "." ++ number)%string
                  end
              end
          end
      end
  end.

(** The row after its parent has been deleted without its children. *)
Definition reparented (self : Item) (r : Item) : Item :=
  if option_nat_eqb (parent r) (Some (id self))
  then set_parent r (parent self) else r.

(** Was the row with this key a child of [self] in [db]? *)
Definition was_child (self : Item) (db : ItemTable) (r : Item) : bool :=
  existsb (fun c => (id c =? id r)%nat) (get_children self db).


(** The test on the parent that [clean] makes: an agenda item is not the
    child of an organizational item (and its parent row exists). *)
Definition parent_type_ok (db : ItemTable) (r : Item) : Prop :=
  type r = AGENDA_ITEM ->
  forall p, parent r = Some p ->
    exists parent_item, objects_get p db = Some parent_item
                        /\ type parent_item = AGENDA_ITEM.

(** Every row of the table passes [clean]. *)
Definition all_clean (db : ItemTable) : Prop :=
  forall r, In r db -> clean r db = inr tt.

End AgendaSpec.

(* ------------------------------------------------------------------ *)
(** ** Lists of speakers *)

Module Speakers.
Import Utils.

(** A row of the speaker table. *)
Record Speaker : Type := mkSpeaker {
  pk : nat;
  user : nat;                 (* primary key of the user who speaks *)
  item : nat;                 (* primary key of the agenda item *)
  begin_time : option Z;
  end_time : option Z;
  weight : option Z
}.

(** What [SpeakerManager.add] may be given as [user]. *)
Inductive request_user : Type :=
| User (user_pk : nat)
| AnonymousUser.

(** Calls to the projector API, in the order they are made. *)
Inductive countdown_call : Type :=
| reset_countdown
| start_countdown
| stop_countdown.

(** The two messages carried by [OpenSlidesError] in [SpeakerManager.add]:
    "... is already on the list of speakers of item ..." and
    "An anonymous user can not be on lists of speakers." *)
Inductive message : Type :=
| already_on_list (u : request_user) (item_id : nat)
| anonymous_user_not_allowed.

Inductive exn : Type :=
| OpenSlidesError (msg : message)
| MultipleObjectsReturned.

(** Everything the speaker operations read or change: the speaker table (in
    primary key order), the countdown calls made so far (oldest first), and
    the wall clock, given by the values of its successive readings. *)
Record World : Type := mkWorld {
  speakers : list Speaker;
  countdown : list countdown_call;
  clock : nat -> Z;
  clock_reads : nat
}.

(** *** State and exception monad *)

Definition M (A : Type) : Type := World -> exn + (A * World).

Definition ret {A : Type} (a : A) : M A := fun w => inr (a, w).

Definition bind {A B : Type} (m : M A) (k : A -> M B) : M B :=
  fun w => match m w with
           | inl e => inl e
           | inr (a, w') => k a w'
           end.

Definition raise {A : Type} (e : exn) : M A := fun _ => inl e.

Notation "x <- m ;; k" := (bind m (fun x => k))
  (at level 61, m at next level, right associativity).
Notation "m ;;; k" := (bind m (fun _ => k))
  (at level 61, right associativity).

Definition when (b : bool) (m : M unit) : M unit :=
  if b then m else ret tt.

Definition get_speakers : M (list Speaker) :=
  fun w => inr (speakers w, w).

Definition put_speakers (rows : list Speaker) : M unit :=
  fun w => inr (tt, {| speakers := rows; countdown := countdown w;
                       clock := clock w; clock_reads := clock_reads w |}).

(** [datetime.now()] *)
Definition datetime_now : M Z :=
  fun w => inr (clock w (clock_reads w),
                {| speakers := speakers w; countdown := countdown w;
                   clock := clock w; clock_reads := S (clock_reads w) |}).

(** Modelled from the spec: [reset_countdown], [start_countdown] and
    [stop_countdown] of [openslides.projector.api] are not among the sources.
    The spec has them as commands without a result whose order matters; a
    call is recorded at the end of the list of the calls made so far. *)
Definition call_countdown (c : countdown_call) : M unit :=
  fun w => inr (tt, {| speakers := speakers w;
                       countdown := countdown w ++ [c];
                       clock := clock w; clock_reads := clock_reads w |}).

(** *** Query filters *)

(** [filter(begin_time=None)] *)
Definition is_coming (s : Speaker) : bool := is_none (begin_time s).

(** [filter(end_time=None).exclude(begin_time=None)] *)
Definition is_actual (s : Speaker) : bool :=
  is_none (end_time s) && negb (is_none (begin_time s)).

(** [exclude(begin_time=None).exclude(end_time=None)] *)
Definition is_old (s : Speaker) : bool :=
  negb (is_none (begin_time s)) && negb (is_none (end_time s)).

Definition on_item (item_id : nat) (s : Speaker) : bool :=
  (item s =? item_id)%nat.

(** [filter(user=user)]: the column holds the key of a registered user. *)
Definition of_user (u : request_user) (s : Speaker) : bool :=
  match u with
  | User user_pk => (user s =? user_pk)%nat
  | AnonymousUser => false
  end.

(** *** Saving and deleting rows *)

(** [row.save()]: UPDATE the row with this primary key, INSERT when there is
    none. *)
Fixpoint save_row (row : Speaker) (rows : list Speaker) : list Speaker :=
  match rows with
  | [] => [row]
  | r :: rest =>
      if (pk r =? pk row)%nat then row :: rest else r :: save_row row rest
  end.

Definition save (row : Speaker) : M unit :=
  rows <- get_speakers ;; put_speakers (save_row row rows).

(** The key given to a new row: above every key in the table. *)
Definition next_pk (rows : list Speaker) : nat :=
  S (fold_right Nat.max O (map pk rows)).

(** *** SpeakerManager *)

(** [SpeakerManager.add(user, item)]; [item_id] is [item.id]. *)
Definition add (u : request_user) (item_id : nat) : M Speaker :=
  rows <- get_speakers ;;
  if existsb (fun s => of_user u s && on_item item_id s && is_coming s) rows
  then raise (OpenSlidesError (already_on_list u item_id))
  else
    match u with
    | AnonymousUser => raise (OpenSlidesError anonymous_user_not_allowed)
    | User user_pk =>
        let weight :=
          py_or (aggregate_max (map weight (filter (on_item item_id) rows))) 0 in
        let new := {| pk := next_pk rows; user := user_pk; item := item_id;
                      begin_time := None; end_time := None;
                      weight := Some (weight + 1) |} in
        put_speakers (rows ++ [new]) ;;;
        ret new
    end.

(** *** Speaker *)

Definition set_end_time (s : Speaker) (t : option Z) : Speaker :=
  {| pk := pk s; user := user s; item := item s;
     begin_time := begin_time s; end_time := t; weight := weight s |}.

Definition set_begin (s : Speaker) (t : option Z) : Speaker :=
  {| pk := pk s; user := user s; item := item s;
     begin_time := t; end_time := end_time s; weight := None |}.

(** [self.end_speach()]; [couple] is
    [config['agenda_couple_countdown_and_speakers']].  The result is the
    in-memory object after the call. *)
Definition end_speach (couple : bool) (self : Speaker) : M Speaker :=
  now <- datetime_now ;;
  let self' := set_end_time self (Some now) in
  save self' ;;;
  when couple (call_countdown stop_countdown) ;;;
  ret self'.

(** [self.begin_speach()] *)
Definition begin_speach (couple : bool) (self : Speaker) : M Speaker :=
  rows <- get_speakers ;;
  match queryset_get
          (filter (fun s => on_item (item self) s && is_actual s) rows) with
  | MultipleObjects => raise MultipleObjectsReturned
  | DoesNotExist => ret tt
  | Got actual_speaker => end_speach couple actual_speaker ;;; ret tt
  end ;;;
  now <- datetime_now ;;
  let self' := set_begin self (Some now) in
  save self' ;;;
  when couple (call_countdown reset_countdown ;;;
               call_countdown start_countdown) ;;;
  ret self'.

(** [self.delete()], Django's [Model.delete] on a speaker. *)
Definition delete (self : Speaker) : M unit :=
  rows <- get_speakers ;;
  put_speakers (filter (fun s => negb (pk s =? pk self)%nat) rows).

(** *** The list of speakers of an item *)

(** The value under ['prefix']: a string for old and actual speakers, an
    integer for coming speakers. *)
Inductive prefix_value : Type :=
| PyStr (s : string)
| PyInt (n : Z).

Inductive speaker_type : Type :=
| old_speaker
| actual_speaker
| coming_speaker.

Record speaker_dict : Type := mkDict {
  prefix : prefix_value;
  speaker : Speaker;
  type : speaker_type;
  first_in_group : bool;
  last_in_group : bool
}.

(** The loop over [enumerate(old_speakers)], from index [number] on. *)
Fixpoint old_speaker_dicts (old_speakers_count number : Z)
  (old_speakers : list Speaker) : list speaker_dict :=
  match old_speakers with
  | [] => []
  | s :: rest =>
      {| prefix := PyStr ("-" ++ str (old_speakers_count - number));
         speaker := s;
         type := old_speaker;
         first_in_group := (number =? 0);
         last_in_group := (number =? old_speakers_count - 1) |}
      :: old_speaker_dicts old_speakers_count (number + 1) rest
  end.

(** The loop over [enumerate(coming_speakers)], from index [number] on. *)
Fixpoint coming_speaker_dicts (coming_speakers_count number : Z)
  (coming_speakers : list Speaker) : list speaker_dict :=
  match coming_speakers with
  | [] => []
  | s :: rest =>
      {| prefix := PyInt (number + 1);
         speaker := s;
         type := coming_speaker;
         first_in_group := (number =? 0);
         last_in_group := (number =? coming_speakers_count - 1) |}
      :: coming_speaker_dicts coming_speakers_count (number + 1) rest
  end.

Definition by_end_time (a b : Speaker) : bool :=
  nullable_leb (end_time a) (end_time b).

Definition by_weight (a b : Speaker) : bool :=
  nullable_leb (weight a) (weight b).

Definition len {A : Type} (l : list A) : Z := Z.of_nat (List.length l).

(** [Item.get_list_of_speakers(old_speakers_count, coming_speakers_count)]
    for the item with key [item_id], over the rows of the speaker table. *)
Definition get_list_of_speakers (item_id : nat)
  (old_speakers_count coming_speakers_count : option Z)
  (rows : list Speaker) : exn + list speaker_dict :=
  let speaker_query := filter (on_item item_id) rows in
  (* Parse old speakers *)
  let old_speakers := order_by by_end_time (filter is_old speaker_query) in
  let old_speakers_count :=
    match old_speakers_count with
    | None => len old_speakers
    | Some c => c
    end in
  let last_old_speakers_count :=
    Z.max 0 (len old_speakers - old_speakers_count) in
  let old_speakers := skipn (Z.to_nat last_old_speakers_count) old_speakers in
  let list_old := old_speaker_dicts old_speakers_count 0 old_speakers in
  (* Parse actual speaker *)
  match queryset_get (filter is_actual speaker_query) with
  | MultipleObjects => inl MultipleObjectsReturned
  | found =>
      let list_actual :=
        match found with
        | Got actual =>
            [ {| prefix := PyStr "0"; speaker := actual;
                 type := actual_speaker;
                 first_in_group := true; last_in_group := true |} ]
        | _ => []
        end in
      (* Parse coming speakers *)
      let coming_speakers :=
        order_by by_weight (filter is_coming speaker_query) in
      let coming_speakers_count :=
        match coming_speakers_count with
        | None => len coming_speakers
        | Some c => c
        end in
      let coming_speakers :=
        firstn (Z.to_nat (Z.max 0 coming_speakers_count)) coming_speakers in
      let list_coming :=
        coming_speaker_dicts coming_speakers_count 0 coming_speakers in
      inr (list_old ++ list_actual ++ list_coming)
  end.

(** [Item.get_next_speaker()] for the item with key [item_id]: the first
    row of the query, [None] on the [IndexError] of an empty one. *)
Definition get_next_speaker (item_id : nat) (rows : list Speaker)
  : option Speaker :=
  match order_by by_weight (filter is_coming (filter (on_item item_id) rows))
  with
  | [] => None
  | next :: _ => Some next
  end.

End Speakers.

(* ------------------------------------------------------------------ *)
(** ** Vocabulary of the properties of the list of speakers *)

Module SpeakerSpec.
Import Utils Speakers.

Definition lookup (k : nat) (rows : list Speaker) : option Speaker :=
  find (fun s => (pk s =? k)%nat) rows.




Definition with_speakers (w : World) (rows : list Speaker) : World :=
  {| speakers := rows; countdown := countdown w;
     clock := clock w; clock_reads := clock_reads w |}.

(** [m] is the largest weight among the entries of the item that await
    their turn. *)
Definition is_max_coming_weight (item_id : nat) (rows : list Speaker)
  (m : Z) : Prop :=
  (exists s, In s rows /\ item s = item_id /\ begin_time s = None
             /\ weight s = Some m)
  /\ (forall s v, In s rows -> item s = item_id -> begin_time s = None ->
                  weight s = Some v -> v <= m).

Definition stop_calls (couple : bool) : list countdown_call :=
  if couple then [stop_countdown] else [].

Definition begin_calls (couple : bool) : list countdown_call :=
  if couple then [reset_countdown; start_countdown] else [].

(** The entries of an item that have spoken, by end time. *)
Definition old_speakers_of (item_id : nat) (rows : list Speaker)
  : list Speaker :=
  order_by by_end_time (filter is_old (filter (on_item item_id) rows)).

(** The entries of an item that await their turn, by weight. *)
Definition coming_speakers_of (item_id : nat) (rows : list Speaker)
  : list Speaker :=
  order_by by_weight (filter is_coming (filter (on_item item_id) rows)).

(** The entries of an item that are speaking. *)
Definition speaking_on (item_id : nat) (rows : list Speaker) : list Speaker :=
  filter (fun s => on_item item_id s && is_actual s) rows.

(** What a row adds to the number of entries speaking on the item. *)
Definition counts (item_id : nat) (s : Speaker) : nat :=
  if on_item item_id s && is_actual s then 1%nat else 0%nat.

Definition at_most_one_speaking (item_id : nat) (w : World) : Prop :=
  (List.length (speaking_on item_id (speakers w)) <= 1)%nat.

(** The primary key of the speaker table. *)
Definition pk_unique (w : World) : Prop := NoDup (map pk (speakers w)).

(** The operations on the queue.  Each one is given the in-memory object it
    is called on, which need not agree with the row of the same key. *)
Inductive queue_op : Type :=
| Enqueue (u : request_user) (item_id : nat)
| BeginSpeech (couple : bool) (self : Speaker)
| EndSpeech (couple : bool) (self : Speaker)
| Remove (self : Speaker).

(** The world after a call: unchanged when the call raises. *)
Definition world_after {A : Type} (r : exn + (A * World)) (w : World)
  : World :=
  match r with
  | inl _ => w
  | inr (_, w') => w'
  end.

Definition step (op : queue_op) (w : World) : World :=
  match op with
  | Enqueue u item_id => world_after (add u item_id w) w
  | BeginSpeech couple self => world_after (begin_speach couple self w) w
  | EndSpeech couple self => world_after (end_speach couple self w) w
  | Remove self => world_after (delete self w) w
  end.

(** The worlds reached after each operation of a sequence. *)
Fixpoint run_ops (ops : list queue_op) (w : World) : list World :=
  match ops with
  | [] => []
  | op :: rest => step op w :: run_ops rest (step op w)
  end.

(** The entry that [get_list_of_speakers] makes for the actual speaker. *)
Definition actual_speaker_dict (s : Speaker) : speaker_dict :=
  {| prefix := PyStr "0"; speaker := s; type := actual_speaker;
     first_in_group := true; last_in_group := true |}.

(** A count as [get_list_of_speakers] uses it: the size of the group when
    it is not given. *)
Definition count_or_all (count : option Z) (group : list Speaker) : Z :=
  match count with
  | None => len group
  | Some c => c
  end.

Definition speaker_type_eqb (a b : speaker_type) : bool :=
  match a, b with
  | old_speaker, old_speaker => true
  | actual_speaker, actual_speaker => true
  | coming_speaker, coming_speaker => true
  | _, _ => false
  end.

(** The entries of a result that belong to one group. *)
Definition group_of (t : speaker_type) (l : list speaker_dict)
  : list speaker_dict :=
  filter (fun d => speaker_type_eqb (type d) t) l.

(** The phase of a row that goes with a group. *)
Definition in_phase (t : speaker_type) (s : Speaker) : bool :=
  match t with
  | old_speaker => is_old s
  | actual_speaker => is_actual s
  | coming_speaker => is_coming s
  end.

End SpeakerSpec.

(* ------------------------------------------------------------------ *)
(** ** Sample tables *)

Module Samples.
Import Speakers.

Definition wall_clock (n : nat) : Z := 1000 + Z.of_nat n.

Definition world_of (rows : list Speaker) : World :=
  {| speakers := rows; countdown := []; clock := wall_clock;
     clock_reads := O |}.

(** User 7 is speaking on item 1. *)
Definition anna_speaks : Speaker :=
  {| pk := 1; user := 7; item := 1;
     begin_time := Some 100; end_time := None; weight := None |}.

(** User 8 has spoken on item 1. *)
Definition bert_spoke : Speaker :=
  {| pk := 2; user := 8; item := 1;
     begin_time := Some 10; end_time := Some 20; weight := None |}.

(** User 9 waits on item 1. *)
Definition carl_waits : Speaker :=
  {| pk := 3; user := 9; item := 1;
     begin_time := None; end_time := None; weight := Some 4 |}.


Definition three_phases : World :=
  world_of [anna_speaks; bert_spoke; carl_waits].

(** Five entries that have spoken on item 1 (in another order than that of
    their end times), one that is speaking, three that wait. *)
Definition full_house : list Speaker :=
  [ mkSpeaker 1 11 1 (Some 41) (Some 50) None;
    mkSpeaker 2 12 1 (Some 1) (Some 10) None;
    mkSpeaker 3 13 1 (Some 21) (Some 30) None;
    mkSpeaker 4 14 1 (Some 11) (Some 20) None;
    mkSpeaker 5 15 1 (Some 31) (Some 40) None;
    mkSpeaker 6 16 1 (Some 51) None None;
    mkSpeaker 7 17 1 None None (Some 3);
    mkSpeaker 8 18 1 None None (Some 1);
    mkSpeaker 9 19 1 None None (Some 2);
    mkSpeaker 10 11 2 None None (Some 1) ].

(** Two agenda items and an organizational item at the root; the second
    agenda item has two agenda items and, between them, an organizational
    item below it. *)
Definition item_row (pk : nat) (t : Agenda.item_type) (p : option nat)
  (w : Z) : Agenda.Item :=
  Agenda.mkItem pk EmptyString "topic" false t p w false.

Definition opening : Agenda.Item := item_row 1 Agenda.AGENDA_ITEM None 1.
Definition coffee : Agenda.Item :=
  item_row 2 Agenda.ORGANIZATIONAL_ITEM None 2.
Definition motions : Agenda.Item := item_row 3 Agenda.AGENDA_ITEM None 3.
Definition motion_a : Agenda.Item :=
  item_row 4 Agenda.AGENDA_ITEM (Some 3%nat) 1.
Definition lunch : Agenda.Item :=
  item_row 5 Agenda.ORGANIZATIONAL_ITEM (Some 3%nat) 2.
Definition motion_b : Agenda.Item :=
  item_row 6 Agenda.AGENDA_ITEM (Some 3%nat) 3.

Definition agenda : Agenda.ItemTable :=
  [opening; motion_a; coffee; lunch; motions; motion_b].

(** User 6 is speaking on item 1 as well: a table that the operations on
    the queue do not lead to, but that the storage allows. *)
Definition dora_speaks : Speaker :=
  {| pk := 4; user := 6; item := 1;
     begin_time := Some 90; end_time := None; weight := None |}.

Definition two_speaking : World := world_of [anna_speaks; dora_speaks].

(** Nobody is speaking on item 1. *)
Definition nobody_speaking : World := world_of [bert_spoke; carl_waits].

End Samples.

(* ================================================================== *)
(** * Part II: properties *)
(* ================================================================== *)

(* ------------------------------------------------------------------ *)
(** ** Facts on [order_by] *)

Module OrderByFacts.
Import Utils.

Section Ordered.
Context {A : Type} (leb : A -> A -> bool).
Hypothesis leb_total : forall a b, leb a b = false -> leb b a = true.
Hypothesis leb_trans :
  forall a b c, leb a b = true -> leb b c = true -> leb a c = true.

Lemma in_insert_row (x y : A) (l : list A) :
  In y (insert_row leb x l) <-> y = x \/ In y l.
Proof.
  induction l as [|z l IH]; simpl; [intuition|].
  destruct (leb x z); simpl; [intuition|]. rewrite IH. intuition.
Qed.

Lemma in_order_by (y : A) (l : list A) : In y (order_by leb l) <-> In y l.
Proof.
  induction l as [|x l IH]; simpl; [tauto|].
  rewrite in_insert_row, IH. intuition.
Qed.

Lemma insert_row_ordered (x : A) (l : list A) :
  ordered leb l -> ordered leb (insert_row leb x l).
Proof.
  unfold ordered. induction 1 as [|y l Hl IH Hy]; simpl.
  - constructor; constructor.
  - destruct (leb x y) eqn:E.
    + constructor; [constructor; assumption|].
      constructor; [exact E|].
      apply Forall_forall. intros z Hz.
      apply (leb_trans x y z E). exact (proj1 (Forall_forall _ _) Hy z Hz).
    + constructor; [exact IH|].
      apply Forall_forall. intros z Hz. apply in_insert_row in Hz as [->|Hz].
      * apply leb_total, E.
      * exact (proj1 (Forall_forall _ _) Hy z Hz).
Qed.

Lemma order_by_ordered (l : list A) : ordered leb (order_by leb l).
Proof.
  induction l as [|x l IH]; simpl; [constructor|].
  apply insert_row_ordered, IH.
Qed.






End Ordered.


Lemma insert_row_permutation {A : Type} (leb : A -> A -> bool) (x : A)
  (l : list A) : Permutation (insert_row leb x l) (x :: l).
Proof.
  induction l as [|y l IH]; simpl; [reflexivity|].
  destruct (leb x y); [reflexivity|].
  rewrite IH. apply perm_swap.
Qed.

(** Ordering keeps the rows: none is lost, none comes twice. *)
Lemma order_by_permutation {A : Type} (leb : A -> A -> bool) (l : list A) :
  Permutation (order_by leb l) l.
Proof.
  induction l as [|x l IH]; simpl; [reflexivity|].
  rewrite insert_row_permutation. constructor. exact IH.
Qed.

Lemma insert_row_before_last {A : Type} (leb : A -> A -> bool) (x y : A)
  (l : list A) :
  leb x y = true ->
  insert_row leb x (l ++ [y]) = insert_row leb x l ++ [y].
Proof.
  intros Hxy. induction l as [|z l IH]; simpl.
  - rewrite Hxy. reflexivity.
  - destruct (leb x z); [reflexivity|]. rewrite IH. reflexivity.
Qed.

(** A row that is not before any other row, added at the end of the table,
    comes last. *)
Lemma order_by_app_last {A : Type} (leb : A -> A -> bool) (y : A)
  (l : list A) :
  (forall x, In x l -> leb x y = true) ->
  order_by leb (l ++ [y]) = order_by leb l ++ [y].
Proof.
  induction l as [|x l IH]; intros H; simpl; [reflexivity|].
  rewrite IH by (intros z Hz; apply H; right; exact Hz).
  apply insert_row_before_last. apply H. left. reflexivity.
Qed.

End OrderByFacts.

Module SpeakerFacts.
Import Utils Speakers SpeakerSpec Samples.

(** ** Unfolding the monad *)

Ltac run :=
  unfold add, end_speach, begin_speach, delete, save, when, bind, ret, raise,
         get_speakers, put_speakers, datetime_now, call_countdown;
  cbn [speakers countdown clock clock_reads].



Lemma pk_le_max (rows : list Speaker) (s : Speaker) :
  In s rows -> (pk s <= fold_right Nat.max O (map pk rows))%nat.
Proof.
  induction rows as [|r rows IH]; simpl; [tauto|].
  intros [->|H]; [lia|]. specialize (IH H). lia.
Qed.



(** ** Enqueueing: [SpeakerManager.add] *)




(** ** The weight of a new entry *)

Lemma aggregate_max_some (column : list (option Z)) (m : Z) :
  aggregate_max column = Some m ->
  In (Some m) column /\ (forall v, In (Some v) column -> v <= m).
Proof.
  revert m. induction column as [|[v|] column IH]; simpl; intros m H.
  - discriminate.
  - destruct (aggregate_max column) as [m'|] eqn:E.
    + injection H as <-. destruct (IH m' eq_refl) as [Hin Hle].
      split.
      * destruct (Z.max_spec v m') as [[_ ->]|[_ ->]]; auto.
      * intros v' [Hv|Hv]; [injection Hv as ->; lia|].
        specialize (Hle v' Hv). lia.
    + injection H as <-. split; [auto|].
      intros v' [Hv|Hv]; [injection Hv as ->; lia|].
      exfalso. clear IH. induction column as [|[x|] column IH]; simpl in *.
      * contradiction.
      * destruct (aggregate_max column); discriminate.
      * destruct Hv as [Hv|Hv]; [discriminate|auto].
  - destruct (IH m H) as [Hin Hle]. split; [auto|].
    intros v' [Hv|Hv]; [discriminate|auto].
Qed.

Lemma aggregate_max_none (column : list (option Z)) :
  aggregate_max column = None -> forall v, ~ In (Some v) column.
Proof.
  induction column as [|[x|] column IH]; simpl; intros H v Hin.
  - contradiction.
  - destruct (aggregate_max column); discriminate.
  - destruct Hin as [Hin|Hin]; [discriminate|]. exact (IH H v Hin).
Qed.

Lemma in_item_weights (item_id : nat) (rows : list Speaker) (v : option Z) :
  In v (map weight (filter (on_item item_id) rows)) <->
  exists s, In s rows /\ item s = item_id /\ weight s = v.
Proof.
  rewrite in_map_iff. unfold on_item. split.
  - intros (s & Hw & Hin). apply filter_In in Hin as [Hin Hi].
    apply Nat.eqb_eq in Hi. eauto.
  - intros (s & Hin & Hi & Hw). exists s. split; [auto|].
    apply filter_In. split; [auto|]. apply Nat.eqb_eq. exact Hi.
Qed.

Lemma py_or_zero (m : Z) : py_or (Some m) 0 = m.
Proof. unfold py_or. destruct (Z.eqb_spec m 0); congruence. Qed.

(** C8.  When the entries of the item that are speaking or have spoken carry
    no weight, a successful [add] gives the new entry the largest weight of
    the item's coming entries plus 1, and 1 when the item has no coming
    entry. *)
Theorem add_weight (u : request_user) (item_id : nat) (w w' : World)
  (new : Speaker) :
  (forall s, In s (speakers w) -> item s = item_id ->
             begin_time s <> None -> weight s = None) ->
  add u item_id w = inr (new, w') ->
  (forall m, is_max_coming_weight item_id (speakers w) m ->
             weight new = Some (m + 1))
  /\ ((forall s, In s (speakers w) -> item s = item_id ->
                 begin_time s <> None) ->
      weight new = Some 1).
Proof.
  intros Hnoweight Hadd. revert Hadd. run.
  destruct (existsb _ (speakers w)); [discriminate|].
  destruct u as [user_pk|]; [|discriminate].
  intros Hadd. injection Hadd as <- _. cbn [weight].
  destruct (aggregate_max _) as [m0|] eqn:E.
  - apply aggregate_max_some in E as [Hin Hmax].
    apply in_item_weights in Hin as (s0 & Hin0 & Hi0 & Hw0).
    assert (Hb0 : begin_time s0 = None).
    { destruct (begin_time s0) eqn:Eb; [|reflexivity].
      rewrite Hnoweight in Hw0; try assumption; [discriminate|].
      rewrite Eb. discriminate. }
    rewrite py_or_zero. split.
    + intros m [(s & Hin & Hi & Hb & Hw) Hle].
      assert (m <= m0).
      { apply Hmax, in_item_weights. eauto. }
      assert (m0 <= m) by (apply (Hle s0); assumption).
      f_equal. lia.
    + intros Hnone. exfalso. apply (Hnone s0); assumption.
  - split.
    + intros m [(s & Hin & Hi & Hb & Hw) _]. exfalso.
      apply (aggregate_max_none _ E m), in_item_weights. eauto.
    + reflexivity.
Qed.

Lemma add_weight_witness :
  exists new w',
    add (User 5) 1 three_phases = inr (new, w')
    /\ is_max_coming_weight 1 (speakers three_phases) 4
    /\ weight new = Some (4 + 1).
Proof.
  assert (Hmax : is_max_coming_weight 1 (speakers three_phases) 4).
  { split.
    - exists carl_waits. simpl. repeat split; auto.
    - intros s v Hin _ Hb Hw. simpl in Hin.
      destruct Hin as [<-|[<-|[<-|[]]]]; simpl in *; try discriminate.
      injection Hw as <-. lia. }
  do 2 eexists. split; [cbv; reflexivity|]. split; [exact Hmax|].
  refine (proj1 (add_weight (User 5) 1 three_phases _ _ _ eq_refl) 4 Hmax).
  intros s Hin _ Hb. simpl in Hin.
  destruct Hin as [<-|[<-|[<-|[]]]]; try reflexivity.
  exfalso. apply Hb. reflexivity.
Defined.

(** ** Ending and beginning a speech *)

Lemma lookup_save_row_same (row : Speaker) (rows : list Speaker) :
  lookup (pk row) (save_row row rows) = Some row.
Proof.
  induction rows as [|r rows IH]; simpl.
  - rewrite Nat.eqb_refl. reflexivity.
  - destruct (Nat.eqb_spec (pk r) (pk row)) as [E|E]; simpl.
    + rewrite Nat.eqb_refl. reflexivity.
    + destruct (Nat.eqb_spec (pk r) (pk row)); [contradiction|exact IH].
Qed.

Lemma lookup_save_row_other (k : nat) (row : Speaker) (rows : list Speaker) :
  pk row <> k -> lookup k (save_row row rows) = lookup k rows.
Proof.
  intros Hk. induction rows as [|r rows IH]; simpl.
  - destruct (Nat.eqb_spec (pk row) k); [contradiction|reflexivity].
  - destruct (Nat.eqb_spec (pk r) (pk row)) as [E|E]; simpl.
    + destruct (Nat.eqb_spec (pk row) k); [contradiction|].
      destruct (Nat.eqb_spec (pk r) k); [congruence|reflexivity].
    + destruct (Nat.eqb_spec (pk r) k); [reflexivity|exact IH].
Qed.

(** What [end_speach] returns, in one equation. *)
Lemma end_speach_eq (couple : bool) (self : Speaker) (w : World) :
  end_speach couple self w
  = inr (set_end_time self (Some (clock w (clock_reads w))),
         {| speakers :=
              save_row (set_end_time self (Some (clock w (clock_reads w))))
                       (speakers w);
            countdown := countdown w ++ stop_calls couple;
            clock := clock w;
            clock_reads := S (clock_reads w) |}).
Proof.
  run. destruct couple; cbn; [reflexivity|].
  rewrite app_nil_r. reflexivity.
Qed.

(** C7.  [end_speach] on an entry that has already spoken does not fail:
    the row keeps its begin time, gets the current clock reading as its end
    time, so it stays in the phase of those who have spoken, and the stop
    call is made once more when the countdown is coupled. *)
Theorem end_speach_again (couple : bool) (self : Speaker) (w : World) :
  is_old self = true ->
  exists self' w',
    end_speach couple self w = inr (self', w')
    /\ lookup (pk self) (speakers w') = Some self'
    /\ end_time self' = Some (clock w (clock_reads w))
    /\ begin_time self' = begin_time self
    /\ is_old self' = true
    /\ countdown w' = countdown w ++ (if couple then [stop_countdown] else []).
Proof.
  intros Hold. rewrite end_speach_eq. do 2 eexists.
  split; [reflexivity|]. cbn [speakers countdown].
  split; [apply (lookup_save_row_same (set_end_time self _))|].
  repeat split.
  unfold is_old in *. cbn. apply andb_true_iff in Hold as [-> _]. reflexivity.
Qed.

Lemma end_speach_again_witness :
  exists self' w',
    end_speach true bert_spoke three_phases = inr (self', w')
    /\ lookup (pk bert_spoke) (speakers w') = Some self'
    /\ end_time self' = Some 1000
    /\ begin_time self' = Some 10
    /\ is_old self' = true
    /\ countdown w' = [stop_countdown].
Proof.
  apply (end_speach_again true bert_spoke three_phases). reflexivity.
Defined.

(** What [begin_speach] returns, by the outcome of the query for the
    actual speaker. *)
Lemma begin_speach_got (couple : bool) (self actual : Speaker) (w : World) :
  filter (fun s => on_item (item self) s && is_actual s) (speakers w)
  = [actual] ->
  begin_speach couple self w
  = inr (set_begin self (Some (clock w (S (clock_reads w)))),
         {| speakers :=
              save_row (set_begin self (Some (clock w (S (clock_reads w)))))
                (save_row
                   (set_end_time actual (Some (clock w (clock_reads w))))
                   (speakers w));
            countdown :=
              countdown w ++ stop_calls couple ++ begin_calls couple;
            clock := clock w;
            clock_reads := S (S (clock_reads w)) |}).
Proof.
  intros Hget. unfold begin_speach, bind at 1 2, get_speakers. rewrite Hget.
  cbn [queryset_get]. unfold bind at 1. rewrite end_speach_eq.
  run. destruct couple; cbn; rewrite <- ?app_assoc, ?app_nil_r; reflexivity.
Qed.

Lemma begin_speach_none (couple : bool) (self : Speaker) (w : World) :
  filter (fun s => on_item (item self) s && is_actual s) (speakers w) = [] ->
  begin_speach couple self w
  = inr (set_begin self (Some (clock w (clock_reads w))),
         {| speakers :=
              save_row (set_begin self (Some (clock w (clock_reads w))))
                       (speakers w);
            countdown := countdown w ++ begin_calls couple;
            clock := clock w;
            clock_reads := S (clock_reads w) |}).
Proof.
  intros Hget. unfold begin_speach, bind at 1 2, get_speakers. rewrite Hget.
  run. destruct couple; cbn; rewrite <- ?app_assoc, ?app_nil_r; reflexivity.
Qed.

Lemma begin_speach_multiple (couple : bool) (self a b : Speaker)
  (rest : list Speaker) (w : World) :
  filter (fun s => on_item (item self) s && is_actual s) (speakers w)
  = a :: b :: rest ->
  begin_speach couple self w = inl MultipleObjectsReturned.
Proof.
  intros Hget. unfold begin_speach, bind at 1 2, get_speakers. rewrite Hget.
  reflexivity.
Qed.

(** C4, as amended.  When [A] is the one entry of the item that is speaking
    and [B] is another entry of the item whose end time is unset,
    [begin_speach] on [B] leaves [A] with an end time (it has spoken), [B]
    with a begin time and no weight (it is speaking), and makes the calls
    stop, reset, start in this order when the countdown is coupled, none
    otherwise. *)
Theorem begin_speach_while_speaking (couple : bool) (A B : Speaker)
  (w : World) :
  filter (fun s => on_item (item B) s && is_actual s) (speakers w) = [A] ->
  pk B <> pk A ->
  end_time B = None ->
  exists A' B' w',
    begin_speach couple B w = inr (B', w')
    /\ lookup (pk A) (speakers w') = Some A'
    /\ A' = set_end_time A (Some (clock w (clock_reads w)))
    /\ is_old A' = true
    /\ lookup (pk B) (speakers w') = Some B'
    /\ B' = set_begin B (Some (clock w (S (clock_reads w))))
    /\ is_actual B' = true /\ weight B' = None
    /\ countdown w'
       = countdown w
         ++ (if couple
             then [stop_countdown; reset_countdown; start_countdown]
             else []).
Proof.
  intros Hget Hpk Hend.
  assert (HA : is_actual A = true).
  { assert (Hin : In A [A]) by (left; reflexivity).
    rewrite <- Hget in Hin. apply filter_In in Hin as [_ H].
    apply andb_true_iff in H as [_ H]. exact H. }
  rewrite (begin_speach_got couple B A w Hget).
  exists (set_end_time A (Some (clock w (clock_reads w)))).
  do 2 eexists. split; [reflexivity|]. cbn [speakers countdown].
  rewrite lookup_save_row_other by (cbn; congruence).
  rewrite (lookup_save_row_same (set_end_time A _)).
  rewrite (lookup_save_row_same (set_begin B _)).
  unfold is_actual, is_old in *. cbn. rewrite Hend.
  destruct (begin_time A); [|rewrite andb_false_r in HA; discriminate].
  repeat split. destruct couple; reflexivity.
Qed.

Lemma begin_speach_while_speaking_witness :
  exists A' B' w',
    begin_speach true carl_waits three_phases = inr (B', w')
    /\ lookup 1 (speakers w') = Some A'
    /\ A' = set_end_time anna_speaks (Some 1000)
    /\ is_old A' = true
    /\ lookup 3 (speakers w') = Some B'
    /\ B' = set_begin carl_waits (Some 1001)
    /\ is_actual B' = true /\ weight B' = None
    /\ countdown w' = [stop_countdown; reset_countdown; start_countdown].
Proof.
  apply (begin_speach_while_speaking true anna_speaks carl_waits three_phases).
  - reflexivity.
  - discriminate.
  - reflexivity.
Defined.

(** C4 as stated fails when [B] already has an end time: [anna_speaks] is the
    one entry speaking on item 1, [bert_spoke] is another entry of that item,
    and after [begin_speach] on it the row has both time stamps set, so it
    is not speaking. *)
Lemma begin_speach_on_spoken_counterexample :
  filter (fun s => on_item (item bert_spoke) s && is_actual s)
         (speakers three_phases) = [anna_speaks]
  /\ pk bert_spoke <> pk anna_speaks
  /\ exists B' w',
       begin_speach true bert_spoke three_phases = inr (B', w')
       /\ lookup (pk bert_spoke) (speakers w') = Some B'
       /\ begin_time B' = Some 1001 /\ end_time B' = Some 20
       /\ is_actual B' = false.
Proof.
  split; [reflexivity|]. split; [discriminate|].
  rewrite (begin_speach_got true bert_spoke anna_speaks three_phases eq_refl).
  do 2 eexists. split; [reflexivity|]. repeat split.
Qed.



(** ** At most one entry of an item is speaking *)

Lemma speaking_on_cons (item_id : nat) (s : Speaker) (rows : list Speaker) :
  List.length (speaking_on item_id (s :: rows))
  = (counts item_id s + List.length (speaking_on item_id rows))%nat.
Proof.
  unfold speaking_on, counts. simpl.
  destruct (on_item item_id s && is_actual s); reflexivity.
Qed.

Lemma speaking_on_save_row_le (item_id : nat) (s : Speaker)
  (rows : list Speaker) :
  (List.length (speaking_on item_id (save_row s rows))
   <= List.length (speaking_on item_id rows) + counts item_id s)%nat.
Proof.
  induction rows as [|r rows IH]; cbn [save_row].
  - rewrite speaking_on_cons. simpl. lia.
  - destruct (pk r =? pk s)%nat; rewrite !speaking_on_cons; lia.
Qed.

Lemma speaking_on_save_row_replace (item_id : nat) (s a : Speaker)
  (rows : list Speaker) :
  NoDup (map pk rows) -> In a rows -> pk s = pk a ->
  (List.length (speaking_on item_id (save_row s rows)) + counts item_id a
   = List.length (speaking_on item_id rows) + counts item_id s)%nat.
Proof.
  intros Hnd Hin Hpk. induction rows as [|r rows IH]; [contradiction|].
  cbn [save_row]. simpl in Hnd. apply NoDup_cons_iff in Hnd as [Hr Hnd].
  destruct (Nat.eqb_spec (pk r) (pk s)) as [E|E].
  - assert (a = r).
    { destruct Hin as [->|Hin]; [reflexivity|]. exfalso. apply Hr.
      rewrite E, Hpk. apply in_map. exact Hin. }
    subst a. rewrite !speaking_on_cons. lia.
  - destruct Hin as [->|Hin]; [congruence|].
    rewrite !speaking_on_cons. specialize (IH Hnd Hin). lia.
Qed.

Lemma speaking_on_filter_le (item_id : nat) (f : Speaker -> bool)
  (rows : list Speaker) :
  (List.length (speaking_on item_id (filter f rows))
   <= List.length (speaking_on item_id rows))%nat.
Proof.
  induction rows as [|r rows IH]; cbn [filter]; [lia|].
  destruct (f r); rewrite !speaking_on_cons; lia.
Qed.

Lemma speaking_on_app (item_id : nat) (l1 l2 : list Speaker) :
  List.length (speaking_on item_id (l1 ++ l2))
  = (List.length (speaking_on item_id l1)
     + List.length (speaking_on item_id l2))%nat.
Proof.
  unfold speaking_on. rewrite filter_app, length_app. reflexivity.
Qed.

Lemma in_map_pk_save_row (k : nat) (s : Speaker) (rows : list Speaker) :
  In k (map pk (save_row s rows)) -> k = pk s \/ In k (map pk rows).
Proof.
  induction rows as [|r rows IH]; cbn [save_row].
  - simpl. intros [H|[]]; auto.
  - destruct (Nat.eqb_spec (pk r) (pk s)) as [E|E]; simpl.
    + intros [H|H]; auto.
    + intros [H|H]; auto. destruct (IH H); auto.
Qed.

Lemma NoDup_save_row (s : Speaker) (rows : list Speaker) :
  NoDup (map pk rows) -> NoDup (map pk (save_row s rows)).
Proof.
  induction rows as [|r rows IH]; cbn [save_row]; intros Hnd.
  - simpl. constructor; [intros []|constructor].
  - simpl in Hnd. apply NoDup_cons_iff in Hnd as [Hr Hnd].
    destruct (Nat.eqb_spec (pk r) (pk s)) as [E|E]; simpl.
    + constructor; [rewrite <- E; exact Hr|exact Hnd].
    + constructor; [|exact (IH Hnd)].
      intros H. apply in_map_pk_save_row in H as [H|H]; auto.
Qed.

Lemma NoDup_map_filter (f : Speaker -> bool) (rows : list Speaker) :
  NoDup (map pk rows) -> NoDup (map pk (filter f rows)).
Proof.
  induction rows as [|r rows IH]; simpl; intros Hnd; [constructor|].
  apply NoDup_cons_iff in Hnd as [Hr Hnd].
  destruct (f r); simpl; [|exact (IH Hnd)].
  constructor; [|exact (IH Hnd)].
  intros H. apply Hr. apply in_map_iff in H as (x & Hx & Hin).
  apply filter_In in Hin as [Hin _]. rewrite <- Hx. apply in_map. exact Hin.
Qed.

Lemma NoDup_append_next (rows : list Speaker) (new : Speaker) :
  pk new = next_pk rows -> NoDup (map pk rows) ->
  NoDup (map pk (rows ++ [new])).
Proof.
  intros Hpk Hnd. rewrite map_app. simpl.
  apply NoDup_app; [exact Hnd|constructor; [intros []|constructor]|].
  intros k Hk [<-|[]]. apply in_map_iff in Hk as (s & Hs & Hin).
  apply pk_le_max in Hin. unfold next_pk in Hpk. lia.
Qed.

Lemma counts_ended (item_id : nat) (s : Speaker) (t : Z) :
  counts item_id (set_end_time s (Some t)) = 0%nat.
Proof.
  unfold counts, is_actual. cbn. rewrite andb_false_r. reflexivity.
Qed.

Lemma counts_other_item (item_id : nat) (s : Speaker) :
  item s <> item_id -> counts item_id s = 0%nat.
Proof.
  intros H. unfold counts, on_item.
  destruct (Nat.eqb_spec (item s) item_id); [contradiction|reflexivity].
Qed.

Lemma counts_le_1 (item_id : nat) (s : Speaker) : (counts item_id s <= 1)%nat.
Proof. unfold counts. destruct (_ && _); lia. Qed.

(** One operation keeps the primary key and the bound on one item. *)
Lemma step_invariant (item_id : nat) (op : queue_op) (w : World) :
  pk_unique w -> at_most_one_speaking item_id w ->
  pk_unique (step op w) /\ at_most_one_speaking item_id (step op w).
Proof.
  unfold pk_unique, at_most_one_speaking. intros Hnd Hone.
  destruct op as [u j|couple self|couple self|self]; cbn [step].
  - (* add *)
    revert Hnd Hone. run. destruct (existsb _ (speakers w)); [auto|].
    destruct u as [user_pk|]; [|auto].
    cbn [world_after speakers]. intros Hnd Hone. split.
    + apply NoDup_append_next; [reflexivity|exact Hnd].
    + rewrite speaking_on_app. cbn. rewrite andb_false_r. simpl. lia.
  - (* begin_speach *)
    destruct (speaking_on (item self) (speakers w)) as [|a [|b rest]] eqn:E;
      unfold speaking_on in E.
    + rewrite (begin_speach_none couple self w E). cbn [world_after speakers]. split.
      * apply NoDup_save_row, Hnd.
      * pose proof (speaking_on_save_row_le item_id
                      (set_begin self (Some (clock w (clock_reads w))))
                      (speakers w)) as Hle.
        destruct (Nat.eq_dec (item self) item_id) as [<-|Hj].
        -- unfold speaking_on at 2 in Hle. rewrite E in Hle.
           pose proof (counts_le_1 (item self)
             (set_begin self (Some (clock w (clock_reads w))))).
           simpl in Hle. lia.
        -- rewrite counts_other_item in Hle by exact Hj. lia.
    + rewrite (begin_speach_got couple self a w E). cbn [world_after speakers].
      assert (Ha : In a (speakers w) /\ item a = item self
                   /\ counts (item self) a = 1%nat).
      { assert (Hin : In a [a]) by (left; reflexivity).
        rewrite <- E in Hin. apply filter_In in Hin as [Hin Hact].
        unfold counts. rewrite Hact. repeat split; auto.
        apply andb_true_iff in Hact as [Hi _]. apply Nat.eqb_eq. exact Hi. }
      destruct Ha as (Hin & Hitem & Hcount).
      set (a' := set_end_time a (Some (clock w (clock_reads w)))).
      set (self' := set_begin self (Some (clock w (S (clock_reads w))))).
      split; [apply NoDup_save_row, NoDup_save_row, Hnd|].
      pose proof (speaking_on_save_row_le item_id self'
                    (save_row a' (speakers w))) as H1.
      pose proof (speaking_on_save_row_le item_id a' (speakers w)) as H2.
      unfold a' at 2 in H2. rewrite counts_ended in H2.
      destruct (Nat.eq_dec (item self) item_id) as [<-|Hj].
      * pose proof (speaking_on_save_row_replace (item self) a' a
                      (speakers w) Hnd Hin eq_refl) as H3.
        unfold a' at 2 in H3. rewrite counts_ended, Hcount in H3.
        unfold speaking_on at 2 in H3. rewrite E in H3. simpl in H3.
        pose proof (counts_le_1 (item self) self'). lia.
      * rewrite counts_other_item in H1 by exact Hj. lia.
    + rewrite (begin_speach_multiple couple self a b rest w E). cbn [world_after]. auto.
  - (* end_speach *)
    rewrite end_speach_eq. cbn [world_after speakers]. split; [apply NoDup_save_row, Hnd|].
    pose proof (speaking_on_save_row_le item_id
                  (set_end_time self (Some (clock w (clock_reads w))))
                  (speakers w)) as Hle.
    rewrite counts_ended in Hle. lia.
  - (* delete *)
    run. cbn [world_after speakers]. split; [apply NoDup_map_filter, Hnd|].
    pose proof (speaking_on_filter_le item_id
                  (fun s => negb (pk s =? pk self)%nat) (speakers w)). lia.
Qed.

(** C5.  From a world in which at most one entry of the item is speaking
    (and the rows have distinct primary keys), every sequence of [add],
    [begin_speach], [end_speach] and [delete] calls leaves at most one entry
    of the item speaking after each call. *)
Theorem at_most_one_speaking_invariant (item_id : nat)
  (ops : list queue_op) (w : World) :
  pk_unique w -> at_most_one_speaking item_id w ->
  Forall (at_most_one_speaking item_id) (run_ops ops w).
Proof.
  revert w. induction ops as [|op ops IH]; intros w Hnd Hone; simpl.
  - constructor.
  - destruct (step_invariant item_id op w Hnd Hone) as [Hnd' Hone'].
    constructor; [exact Hone'|apply IH; assumption].
Qed.

Lemma at_most_one_speaking_invariant_witness :
  Forall (at_most_one_speaking 1)
    (run_ops [Enqueue (User 5) 1; BeginSpeech true carl_waits;
              EndSpeech true anna_speaks; BeginSpeech false bert_spoke;
              Remove carl_waits; BeginSpeech true anna_speaks]
       three_phases).
Proof.
  apply at_most_one_speaking_invariant.
  - unfold pk_unique. simpl.
    repeat (constructor; [simpl; intuition discriminate|]). constructor.
  - unfold at_most_one_speaking. simpl. lia.
Defined.

(** ** The list of speakers *)

Lemma in_old_speaker_dicts (count number : Z) (l : list Speaker)
  (d : speaker_dict) :
  In d (old_speaker_dicts count number l) ->
  exists k, number <= k < number + len l
            /\ prefix d = PyStr ("-" ++ str (count - k))
            /\ type d = old_speaker
            /\ first_in_group d = (k =? 0)
            /\ last_in_group d = (k =? count - 1)
            /\ In (speaker d) l.
Proof.
  unfold len. revert number.
  induction l as [|s l IH]; intros number; simpl; [tauto|].
  intros [<-|H].
  - exists number. cbn. repeat split; auto; lia.
  - destruct (IH _ H) as (k & Hk & Hrest). exists k.
    split; [lia|]. intuition.
Qed.

Lemma in_coming_speaker_dicts (count number : Z) (l : list Speaker)
  (d : speaker_dict) :
  In d (coming_speaker_dicts count number l) ->
  exists k, number <= k < number + len l
            /\ prefix d = PyInt (k + 1)
            /\ type d = coming_speaker
            /\ first_in_group d = (k =? 0)
            /\ last_in_group d = (k =? count - 1)
            /\ In (speaker d) l.
Proof.
  unfold len. revert number.
  induction l as [|s l IH]; intros number; simpl; [tauto|].
  intros [<-|H].
  - exists number. cbn. repeat split; auto; lia.
  - destruct (IH _ H) as (k & Hk & Hrest). exists k.
    split; [lia|]. intuition.
Qed.

(** The window of old speakers holds at most [old_speakers_count] rows, and
    none when that count is negative. *)
Lemma old_window_length (count : Z) (l : list Speaker) :
  len (skipn (Z.to_nat (Z.max 0 (len l - count))) l) <= Z.max 0 count.
Proof. unfold len. rewrite length_skipn. lia. Qed.

Lemma coming_window_length (count : Z) (l : list Speaker) :
  len (firstn (Z.to_nat (Z.max 0 count)) l) <= Z.max 0 count.
Proof. unfold len. rewrite length_firstn. lia. Qed.

(** The result of [get_list_of_speakers] when the query for the actual
    speaker does not find several rows. *)
Lemma get_list_of_speakers_ok (item_id : nat) (old coming : option Z)
  (rows : list Speaker) (l : list speaker_dict) :
  get_list_of_speakers item_id old coming rows = inr l ->
  exists olds actuals comings old_count coming_count,
    l = old_speaker_dicts old_count 0 olds
        ++ actuals ++ coming_speaker_dicts coming_count 0 comings
    /\ len olds <= Z.max 0 old_count
    /\ len comings <= Z.max 0 coming_count
    /\ (forall c, old = Some c -> old_count = c)
    /\ (forall c, coming = Some c -> coming_count = c)
    /\ (forall d, In d actuals ->
          prefix d = PyStr "0" /\ type d = actual_speaker
          /\ first_in_group d = true /\ last_in_group d = true).
Proof.
  unfold get_list_of_speakers.
  set (q := filter (on_item item_id) rows).
  set (olds := order_by by_end_time (filter is_old q)).
  set (comings := order_by by_weight (filter is_coming q)).
  set (oc := match old with None => len olds | Some c => c end).
  set (cc := match coming with None => len comings | Some c => c end).
  intros H.
  exists (skipn (Z.to_nat (Z.max 0 (len olds - oc))) olds).
  exists (match queryset_get (filter is_actual q) with
          | Got actual => [ {| prefix := PyStr "0"; speaker := actual;
                               type := actual_speaker;
                               first_in_group := true;
                               last_in_group := true |} ]
          | _ => []
          end).
  exists (firstn (Z.to_nat (Z.max 0 cc)) comings), oc, cc.
  split; [|split; [|split; [|split; [|split]]]].
  - destruct (queryset_get (filter is_actual q));
      [injection H as <-|injection H as <-|discriminate]; reflexivity.
  - apply old_window_length.
  - apply coming_window_length.
  - intros c ->. reflexivity.
  - intros c ->. reflexivity.
  - intros d Hd. destruct (queryset_get (filter is_actual q)); simpl in Hd;
      [|contradiction|contradiction].
    destruct Hd as [<-|[]]. repeat split.
Qed.

Lemma get_list_of_speakers_total (item_id : nat) (old coming : option Z)
  (rows : list Speaker) :
  (List.length (speaking_on item_id rows) <= 1)%nat ->
  exists l, get_list_of_speakers item_id old coming rows = inr l.
Proof.
  unfold speaking_on, get_list_of_speakers. intros H.
  assert (E : filter is_actual (filter (on_item item_id) rows)
              = filter (fun s => on_item item_id s && is_actual s) rows).
  { clear H. induction rows as [|r rows IH]; simpl; [reflexivity|].
    destruct (on_item item_id r); simpl; [|exact IH].
    destruct (is_actual r); [f_equal|]; exact IH. }
  rewrite E.
  destruct (filter _ rows) as [|a [|b rest]]; simpl in *;
    [eexists; reflexivity|eexists; reflexivity|lia].
Qed.

(** C10.  In every result of [get_list_of_speakers], the prefix of an old
    speaker is the string made of a minus sign and a positive decimal
    number, the prefix of the actual speaker is the string "0", and the
    prefix of a coming speaker is a positive integer, not a string. *)
Theorem prefix_kinds (item_id : nat) (old coming : option Z)
  (rows : list Speaker) (l : list speaker_dict) (d : speaker_dict) :
  get_list_of_speakers item_id old coming rows = inr l ->
  In d l ->
  match type d with
  | old_speaker => exists n, 1 <= n /\ prefix d = PyStr ("-" ++ str n)
  | actual_speaker => prefix d = PyStr "0"
  | coming_speaker => exists n, 1 <= n /\ prefix d = PyInt n
  end.
Proof.
  intros H Hd.
  apply get_list_of_speakers_ok in H
    as (olds & actuals & comings & oc & cc & -> & Ho & Hc & _ & _ & Ha).
  apply in_app_or in Hd as [Hd|Hd]; [|apply in_app_or in Hd as [Hd|Hd]].
  - apply in_old_speaker_dicts in Hd as (k & Hk & Hp & -> & _).
    exists (oc - k). split; [lia|exact Hp].
  - destruct (Ha d Hd) as (Hp & -> & _). exact Hp.
  - apply in_coming_speaker_dicts in Hd as (k & Hk & Hp & -> & _).
    exists (k + 1). split; [lia|exact Hp].
Qed.

Lemma prefix_kinds_witness :
  exists n, 1 <= n
    /\ prefix (mkDict (PyStr "-2") (mkSpeaker 5 15 1 (Some 31) (Some 40) None)
                 old_speaker false false)
       = PyStr ("-" ++ str n).
Proof.
  apply (prefix_kinds 1 (Some 4) (Some 2) full_house
           [ mkDict (PyStr "-4") (mkSpeaker 4 14 1 (Some 11) (Some 20) None)
               old_speaker true false;
             mkDict (PyStr "-3") (mkSpeaker 3 13 1 (Some 21) (Some 30) None)
               old_speaker false false;
             mkDict (PyStr "-2") (mkSpeaker 5 15 1 (Some 31) (Some 40) None)
               old_speaker false false;
             mkDict (PyStr "-1") (mkSpeaker 1 11 1 (Some 41) (Some 50) None)
               old_speaker false true;
             mkDict (PyStr "0") (mkSpeaker 6 16 1 (Some 51) None None)
               actual_speaker true true;
             mkDict (PyInt 1) (mkSpeaker 8 18 1 None None (Some 1))
               coming_speaker true false;
             mkDict (PyInt 2) (mkSpeaker 9 19 1 None None (Some 2))
               coming_speaker false true ]
           (mkDict (PyStr "-2") (mkSpeaker 5 15 1 (Some 31) (Some 40) None)
               old_speaker false false)).
  - reflexivity.
  - simpl. auto.
Defined.

Lemma len_nil_inv {A : Type} (l : list A) : len l <= 0 -> l = [].
Proof. destruct l; [reflexivity|unfold len; simpl; lia]. Qed.

Lemma get_list_of_speakers_error (item_id : nat) (old coming : option Z)
  (rows : list Speaker) (e : exn) :
  get_list_of_speakers item_id old coming rows = inl e ->
  e = MultipleObjectsReturned
  /\ (2 <= List.length (speaking_on item_id rows))%nat.
Proof.
  intros H.
  destruct (le_lt_dec 2 (List.length (speaking_on item_id rows))) as [Hl|Hl].
  - split; [|exact Hl]. unfold get_list_of_speakers in H.
    destruct (queryset_get _); [discriminate|discriminate|].
    injection H as <-. reflexivity.
  - destruct (get_list_of_speakers_total item_id old coming rows) as [l Hl'];
      [lia|congruence].
Qed.

(** C9.  Whatever integers are given as counts, [get_list_of_speakers]
    raises nothing on an item with at most one entry speaking (and when it
    does raise, it is for several entries speaking); a negative
    [old_speakers_count] leaves no old speaker in the result, and a negative
    [coming_speakers_count] no coming speaker. *)
Theorem negative_counts (item_id : nat) (old coming : option Z)
  (rows : list Speaker) :
  ((List.length (speaking_on item_id rows) <= 1)%nat ->
   exists l, get_list_of_speakers item_id old coming rows = inr l)
  /\ (forall e, get_list_of_speakers item_id old coming rows = inl e ->
        e = MultipleObjectsReturned
        /\ (2 <= List.length (speaking_on item_id rows))%nat)
  /\ (forall l, get_list_of_speakers item_id old coming rows = inr l ->
        (forall c, old = Some c -> c < 0 ->
           forall d, In d l -> type d <> old_speaker)
        /\ (forall c, coming = Some c -> c < 0 ->
              forall d, In d l -> type d <> coming_speaker)).
Proof.
  split; [apply get_list_of_speakers_total|].
  split; [apply get_list_of_speakers_error|].
  intros l H.
  apply get_list_of_speakers_ok in H
    as (olds & actuals & comings & oc & cc & -> & Ho & Hc & Hoc & Hcc & Ha).
  split; intros c Hsome Hneg d Hd.
  - rewrite (Hoc c Hsome) in Ho. rewrite (len_nil_inv olds) in Hd by lia.
    simpl in Hd. apply in_app_or in Hd as [Hd|Hd].
    + destruct (Ha d Hd) as (_ & -> & _). discriminate.
    + apply in_coming_speaker_dicts in Hd as (k & _ & _ & -> & _).
      discriminate.
  - rewrite (Hcc c Hsome) in Hc. rewrite (len_nil_inv comings) in Hd by lia.
    simpl in Hd. rewrite app_nil_r in Hd. apply in_app_or in Hd as [Hd|Hd].
    + apply in_old_speaker_dicts in Hd as (k & _ & _ & -> & _).
      discriminate.
    + destruct (Ha d Hd) as (_ & -> & _). discriminate.
Qed.

Lemma negative_counts_witness :
  (exists l, get_list_of_speakers 1 (Some (-2)) (Some (-1)) full_house = inr l)
  /\ type (mkDict (PyStr "0") (mkSpeaker 6 16 1 (Some 51) None None)
             actual_speaker true true) <> old_speaker
  /\ type (mkDict (PyStr "0") (mkSpeaker 6 16 1 (Some 51) None None)
             actual_speaker true true) <> coming_speaker.
Proof.
  pose proof (negative_counts 1 (Some (-2)) (Some (-1)) full_house)
    as (Htotal & _ & Hneg).
  split; [apply Htotal; simpl; lia|].
  destruct (Hneg [ mkDict (PyStr "0") (mkSpeaker 6 16 1 (Some 51) None None)
                     actual_speaker true true ] eq_refl) as [Hold Hcoming].
  split.
  - apply (Hold (-2) eq_refl); [lia|left; reflexivity].
  - apply (Hcoming (-1) eq_refl); [lia|left; reflexivity].
Defined.


Lemma nullable_leb_total (a b : option Z) :
  nullable_leb a b = false -> nullable_leb b a = true.
Proof.
  destruct a as [x|], b as [y|]; simpl; try congruence.
  rewrite Z.leb_gt, Z.leb_le. lia.
Qed.

Lemma nullable_leb_trans (a b c : option Z) :
  nullable_leb a b = true -> nullable_leb b c = true ->
  nullable_leb a c = true.
Proof.
  destruct a as [x|], b as [y|], c as [z|]; simpl; try congruence.
  rewrite !Z.leb_le. lia.
Qed.

(** The old speakers come by ascending end time, the coming speakers by
    ascending weight, and both lists hold the entries of their phase. *)
Lemma old_speakers_of_ordered (item_id : nat) (rows : list Speaker) :
  ordered by_end_time (old_speakers_of item_id rows)
  /\ forall s, In s (old_speakers_of item_id rows) <->
               In s rows /\ item s = item_id /\ is_old s = true.
Proof.
  split.
  - apply OrderByFacts.order_by_ordered; unfold by_end_time.
    + intros a b. apply nullable_leb_total.
    + intros a b c. apply nullable_leb_trans.
  - intros s. unfold old_speakers_of.
    rewrite OrderByFacts.in_order_by, !filter_In. unfold on_item.
    rewrite Nat.eqb_eq. tauto.
Qed.

Lemma coming_speakers_of_ordered (item_id : nat) (rows : list Speaker) :
  ordered by_weight (coming_speakers_of item_id rows)
  /\ forall s, In s (coming_speakers_of item_id rows) <->
               In s rows /\ item s = item_id /\ is_coming s = true.
Proof.
  split.
  - apply OrderByFacts.order_by_ordered; unfold by_weight.
    + intros a b. apply nullable_leb_total.
    + intros a b c. apply nullable_leb_trans.
  - intros s. unfold coming_speakers_of.
    rewrite OrderByFacts.in_order_by, !filter_In. unfold on_item.
    rewrite Nat.eqb_eq. tauto.
Qed.
(** *** Counts within the groups *)

Lemma nth_old_speaker_dicts (count number : Z) (l : list Speaker) (i : nat)
  (d : speaker_dict) :
  nth_error (old_speaker_dicts count number l) i = Some d ->
  nth_error l i = Some (speaker d)
  /\ prefix d = PyStr ("-" ++ str (count - (number + Z.of_nat i)))
  /\ type d = old_speaker
  /\ first_in_group d = (number + Z.of_nat i =? 0)
  /\ last_in_group d = (number + Z.of_nat i =? count - 1).
Proof.
  revert number i. induction l as [|s l IH]; intros number i; simpl.
  - destruct i; discriminate.
  - destruct i as [|i]; simpl.
    + intros H. injection H as <-. cbn. rewrite Z.add_0_r. auto.
    + intros H. destruct (IH _ _ H) as (H1 & H2 & H3 & H4 & H5).
      replace (number + Z.pos (Pos.of_succ_nat i))
        with (number + 1 + Z.of_nat i) by lia.
      auto.
Qed.

Lemma nth_coming_speaker_dicts (count number : Z) (l : list Speaker) (i : nat)
  (d : speaker_dict) :
  nth_error (coming_speaker_dicts count number l) i = Some d ->
  nth_error l i = Some (speaker d)
  /\ prefix d = PyInt (number + Z.of_nat i + 1)
  /\ type d = coming_speaker
  /\ first_in_group d = (number + Z.of_nat i =? 0)
  /\ last_in_group d = (number + Z.of_nat i =? count - 1).
Proof.
  revert number i. induction l as [|s l IH]; intros number i; simpl.
  - destruct i; discriminate.
  - destruct i as [|i]; simpl.
    + intros H. injection H as <-. cbn. rewrite Z.add_0_r. auto.
    + intros H. destruct (IH _ _ H) as (H1 & H2 & H3 & H4 & H5).
      replace (number + Z.pos (Pos.of_succ_nat i))
        with (number + 1 + Z.of_nat i) by lia.
      auto.
Qed.

Lemma length_old_speaker_dicts (count number : Z) (l : list Speaker) :
  List.length (old_speaker_dicts count number l) = List.length l.
Proof.
  revert number. induction l as [|s l IH]; intros number; simpl; auto.
Qed.

Lemma length_coming_speaker_dicts (count number : Z) (l : list Speaker) :
  List.length (coming_speaker_dicts count number l) = List.length l.
Proof.
  revert number. induction l as [|s l IH]; intros number; simpl; auto.
Qed.

(** What the code does get right of C3: when each count is unset or lies
    between 0 and the size of its group, the result is the window of old
    speakers, then the actual speaker if there is one, then the window of
    coming speakers; the prefixes of the old speakers count down from the
    size of their window to 1, those of the coming speakers count up from
    1, and in each window the first row and the last row, and no other, are
    marked. *)
Lemma list_of_speakers_within_groups (item_id : nat) (old coming : option Z)
  (rows : list Speaker) :
  (List.length (speaking_on item_id rows) <= 1)%nat ->
  (forall c, old = Some c -> 0 <= c <= len (old_speakers_of item_id rows)) ->
  (forall c, coming = Some c ->
             0 <= c <= len (coming_speakers_of item_id rows)) ->
  exists olds actuals comings,
    get_list_of_speakers item_id old coming rows
    = inr (olds ++ actuals ++ comings)
    /\ (forall c, old = Some c -> len olds = c)
    /\ (old = None -> len olds = len (old_speakers_of item_id rows))
    /\ (forall i d, nth_error olds i = Some d ->
          nth_error (skipn (List.length (old_speakers_of item_id rows)
                            - List.length olds)
                       (old_speakers_of item_id rows)) i = Some (speaker d)
          /\ prefix d = PyStr ("-" ++ str (len olds - Z.of_nat i))
          /\ type d = old_speaker
          /\ first_in_group d = (Z.of_nat i =? 0)
          /\ last_in_group d = (Z.of_nat i =? len olds - 1))
    /\ map speaker actuals = speaking_on item_id rows
    /\ (forall d, In d actuals ->
          prefix d = PyStr "0" /\ type d = actual_speaker
          /\ first_in_group d = true /\ last_in_group d = true)
    /\ (forall c, coming = Some c -> len comings = c)
    /\ (coming = None -> len comings = len (coming_speakers_of item_id rows))
    /\ (forall i d, nth_error comings i = Some d ->
          nth_error (coming_speakers_of item_id rows) i = Some (speaker d)
          /\ prefix d = PyInt (Z.of_nat i + 1)
          /\ type d = coming_speaker
          /\ first_in_group d = (Z.of_nat i =? 0)
          /\ last_in_group d = (Z.of_nat i =? len comings - 1)).
Proof.
  intros Hone Hold Hcoming.
  unfold get_list_of_speakers.
  fold (old_speakers_of item_id rows). fold (coming_speakers_of item_id rows).
  set (spoken := old_speakers_of item_id rows) in *.
  set (waiting := coming_speakers_of item_id rows) in *.
  set (oc := match old with None => len spoken | Some c => c end).
  set (cc := match coming with None => len waiting | Some c => c end).
  assert (Hoc : 0 <= oc <= len spoken).
  { unfold oc. destruct old as [c|]; [apply Hold; reflexivity|].
    unfold len. lia. }
  assert (Hcc : 0 <= cc <= len waiting).
  { unfold cc. destruct coming as [c|]; [apply Hcoming; reflexivity|].
    unfold len. lia. }
  set (window := skipn (Z.to_nat (Z.max 0 (len spoken - oc))) spoken).
  set (leading := firstn (Z.to_nat (Z.max 0 cc)) waiting).
  assert (Hwin : len window = oc).
  { unfold window, len in *. rewrite length_skipn. lia. }
  assert (Hlead : len leading = cc).
  { unfold leading, len in *. rewrite length_firstn. lia. }
  assert (E : filter is_actual (filter (on_item item_id) rows)
              = speaking_on item_id rows).
  { unfold speaking_on. clear. induction rows as [|r rows IH]; simpl;
      [reflexivity|].
    destruct (on_item item_id r); simpl; [|exact IH].
    destruct (is_actual r); [f_equal|]; exact IH. }
  rewrite E.
  exists (old_speaker_dicts oc 0 window).
  exists (match queryset_get (speaking_on item_id rows) with
          | Got actual => [ {| prefix := PyStr "0"; speaker := actual;
                               type := actual_speaker;
                               first_in_group := true;
                               last_in_group := true |} ]
          | _ => []
          end).
  exists (coming_speaker_dicts cc 0 leading).
  assert (Hlo : len (old_speaker_dicts oc 0 window) = oc)
    by (unfold len in *; rewrite length_old_speaker_dicts; exact Hwin).
  assert (Hlc : len (coming_speaker_dicts cc 0 leading) = cc)
    by (unfold len in *; rewrite length_coming_speaker_dicts; exact Hlead).
  split; [|split; [|split; [|split; [|split; [|split; [|split; [|split]]]]]]].
  - destruct (speaking_on item_id rows) as [|a [|b rest]]; simpl in *;
      [reflexivity|reflexivity|lia].
  - intros c Hc. rewrite Hlo. unfold oc. rewrite Hc. reflexivity.
  - intros Hc. rewrite Hlo. unfold oc. rewrite Hc. reflexivity.
  - intros i d Hd. rewrite Hlo.
    apply nth_old_speaker_dicts in Hd as (H1 & H2 & H3 & H4 & H5).
    rewrite Z.add_0_l in *. repeat split; auto.
    rewrite length_old_speaker_dicts.
    replace (List.length spoken - List.length window)%nat
      with (Z.to_nat (Z.max 0 (len spoken - oc)));
      [exact H1|unfold len in *; lia].
  - destruct (speaking_on item_id rows) as [|a [|b rest]]; simpl in *;
      [reflexivity|reflexivity|lia].
  - intros d Hd. destruct (queryset_get _); simpl in Hd;
      [|contradiction|contradiction].
    destruct Hd as [<-|[]]. repeat split.
  - intros c Hc. rewrite Hlc. unfold cc. rewrite Hc. reflexivity.
  - intros Hc. rewrite Hlc. unfold cc. rewrite Hc. reflexivity.
  - intros i d Hd. rewrite Hlc.
    apply nth_coming_speaker_dicts in Hd as (H1 & H2 & H3 & H4 & H5).
    rewrite Z.add_0_l in *. repeat split; auto.
    unfold leading in H1.
    destruct (le_lt_dec (Z.to_nat (Z.max 0 cc)) i) as [Hi|Hi].
    + rewrite (proj2 (nth_error_None _ _)) in H1; [discriminate|].
      rewrite length_firstn. lia.
    + rewrite nth_error_firstn in H1.
      destruct (Nat.ltb_spec i (Z.to_nat (Z.max 0 cc))); [exact H1|lia].
Qed.

(** The example of the spec: five old speakers, one actual speaker, three
    coming speakers, both counts 2.  The two old speakers that ended last
    come first, oldest first, then the actual speaker, then the two coming
    speakers of least weight. *)
Lemma list_of_speakers_example :
  match get_list_of_speakers 1 (Some 2) (Some 2) full_house with
  | inr l =>
      map (fun d => (prefix d, pk (speaker d), type d,
                     first_in_group d, last_in_group d)) l
      = [ (PyStr "-2", 5%nat, old_speaker, true, false);
          (PyStr "-1", 1%nat, old_speaker, false, true);
          (PyStr "0", 6%nat, actual_speaker, true, true);
          (PyInt 1, 8%nat, coming_speaker, true, false);
          (PyInt 2, 9%nat, coming_speaker, false, true) ]
  | inl _ => False
  end.
Proof. reflexivity. Qed.

(** C3 fails on the code when a count is larger than its group.  With one
    old speaker and [old_speakers_count = 3] the prefix is "-3", not "-1",
    and the entry is not marked as the last of its group; with one coming
    speaker and [coming_speakers_count = 5] the entry is not marked as the
    last of its group either. *)
Theorem list_of_speakers_short_groups :
  get_list_of_speakers 1 (Some 3) (Some 5) (speakers three_phases)
  = inr [ {| prefix := PyStr "-3"; speaker := bert_spoke;
             type := old_speaker;
             first_in_group := true; last_in_group := false |};
          {| prefix := PyStr "0"; speaker := anna_speaks;
             type := actual_speaker;
             first_in_group := true; last_in_group := true |};
          {| prefix := PyInt 1; speaker := carl_waits;
             type := coming_speaker;
             first_in_group := true; last_in_group := false |} ].
Proof. reflexivity. Qed.
End SpeakerFacts.

Module AgendaFacts.
Import Utils Agenda AgendaSpec Samples.


(** ** Keys, parents and levels *)

Lemma option_nat_eqb_eq (a b : option nat) :
  option_nat_eqb a b = true <-> a = b.
Proof.
  destruct a as [x|], b as [y|]; simpl; try (split; congruence).
  rewrite Nat.eqb_eq. split; congruence.
Qed.


Lemma objects_get_in (p : nat) (db : ItemTable) (r : Item) :
  objects_get p db = Some r -> In r db /\ id r = p.
Proof.
  unfold objects_get. intros H. apply find_some in H as [Hin Hid].
  apply Nat.eqb_eq in Hid. auto.
Qed.

Lemma same_id_same_row (db : ItemTable) (a b : Item) :
  ids_unique db -> In a db -> In b db -> id a = id b -> a = b.
Proof.
  unfold ids_unique. induction db as [|r db IH]; simpl; [tauto|].
  intros Hnd Ha Hb Hid. apply NoDup_cons_iff in Hnd as [Hr Hnd].
  destruct Ha as [->|Ha], Hb as [->|Hb].
  - reflexivity.
  - exfalso. apply Hr. rewrite Hid. apply in_map. exact Hb.
  - exfalso. apply Hr. rewrite <- Hid. apply in_map. exact Ha.
  - apply IH; assumption.
Qed.

Lemma objects_get_unique (db : ItemTable) (r : Item) :
  ids_unique db -> In r db -> objects_get (id r) db = Some r.
Proof.
  intros Hnd Hin. destruct (objects_get (id r) db) as [r'|] eqn:E.
  - apply objects_get_in in E as [Hin' Hid].
    f_equal. apply (same_id_same_row db); assumption.
  - unfold objects_get in E. apply (find_none _ _ E) in Hin.
    rewrite Nat.eqb_refl in Hin. discriminate.
Qed.

Lemma has_level_fun (db : ItemTable) (r : Item) (n m : nat) :
  has_level db r n -> has_level db r m -> n = m.
Proof.
  intros Hn. revert m. induction Hn as [r Hr|r pr p n Hp Hget Hn IH];
    intros m Hm; inversion Hm; subst; try congruence.
  f_equal. apply IH. congruence.
Qed.

(** The rows from [r] up to its root are pairwise distinct rows of the
    table, so a level is below the number of rows. *)
Lemma has_level_chain (db : ItemTable) (r : Item) (n : nat) :
  In r db -> has_level db r n ->
  exists chain, List.length chain = S n /\ NoDup chain /\ incl chain db
                /\ forall x, In x chain ->
                     exists m, (m <= n)%nat /\ has_level db x m.
Proof.
  intros Hin Hn. induction Hn as [r Hr|r pr p n Hp Hget Hn IH].
  - exists [r]. repeat split.
    + constructor; [intros []|constructor].
    + intros x [<-|[]]. exact Hin.
    + intros x [<-|[]]. exists O. split; [lia|constructor; exact Hr].
  - destruct (objects_get_in _ _ _ Hget) as [Hpin _].
    destruct (IH Hpin) as (chain & Hlen & Hnd & Hincl & Hlev).
    exists (r :: chain). repeat split.
    + simpl. lia.
    + constructor; [|exact Hnd]. intros Hr.
      destruct (Hlev r Hr) as (m & Hm & Hrm).
      assert (S n = m)
        by (apply (has_level_fun db r); [econstructor; eassumption|exact Hrm]).
      lia.
    + intros x [<-|Hx]; [exact Hin|apply Hincl, Hx].
    + intros x [<-|Hx].
      * exists (S n). split; [lia|econstructor; eassumption].
      * destruct (Hlev x Hx) as (m & Hm & Hxm). exists m. split; [lia|auto].
Qed.

Lemma has_level_bound (db : ItemTable) (r : Item) (n : nat) :
  In r db -> has_level db r n -> (n < List.length db)%nat.
Proof.
  intros Hin Hn.
  destruct (has_level_chain db r n Hin Hn) as (chain & Hlen & Hnd & Hincl & _).
  pose proof (NoDup_incl_length Hnd Hincl). lia.
Qed.

(** ** The position among the siblings *)

Lemma previous_in_split (pk : nat) (prev : option Item) (pre post : list Item)
  (x : Item) :
  id x = pk -> ~ In pk (map id pre) ->
  previous_in pk prev (pre ++ x :: post)
  = match rev pre with
    | [] => prev
    | y :: _ => Some y
    end.
Proof.
  intros Hx. revert prev.
  induction pre as [|r pre IH]; intros prev Hpre; simpl.
  - rewrite Hx, Nat.eqb_refl. reflexivity.
  - simpl in Hpre. destruct (Nat.eqb_spec (id r) pk) as [E|E]; [tauto|].
    rewrite IH by tauto. destruct (rev pre) as [|y l] eqn:Er; reflexivity.
Qed.

Lemma preceding_split (pk : nat) (pre post : list Item) (x : Item) :
  id x = pk -> ~ In pk (map id pre) ->
  preceding pk (pre ++ x :: post) = pre.
Proof.
  intros Hx. induction pre as [|r pre IH]; intros Hpre; simpl.
  - rewrite Hx, Nat.eqb_refl. reflexivity.
  - simpl in Hpre. destruct (Nat.eqb_spec (id r) pk) as [E|E]; [tauto|].
    rewrite IH by tauto. reflexivity.
Qed.

Lemma NoDup_map_id_filter (f : Item -> bool) (db : ItemTable) :
  NoDup (map id db) -> NoDup (map id (filter f db)).
Proof.
  induction db as [|r db IH]; simpl; intros Hnd; [constructor|].
  apply NoDup_cons_iff in Hnd as [Hr Hnd].
  destruct (f r); simpl; [|exact (IH Hnd)].
  constructor; [|exact (IH Hnd)].
  intros H. apply Hr. apply in_map_iff in H as (x & Hx & Hin).
  apply filter_In in Hin as [Hin _]. rewrite <- Hx. apply in_map. exact Hin.
Qed.

Lemma in_children_of (p : option nat) (db : ItemTable) (r : Item) :
  In r (children_of p db) <-> In r db /\ parent r = p.
Proof.
  unfold children_of. rewrite filter_In, option_nat_eqb_eq. tauto.
Qed.

Lemma key_not_before (pre post : list Item) (x : Item) :
  NoDup (map id (pre ++ x :: post)) -> ~ In (id x) (map id pre).
Proof.
  rewrite map_app. simpl. intros Hnd Hin.
  apply NoDup_remove_2 in Hnd. apply Hnd, in_or_app. left. exact Hin.
Qed.

(** The loop of [_calc_sibling_no], started on the row before [x], walks
    back over the siblings [pre] before [x] and adds one for each agenda
    item among them. *)
Lemma sibling_loop_walk (db : ItemTable) (p : option nat) :
  forall (pre post : list Item) (x : Item) (fuel : nat) (acc : Z),
    children_of p db = pre ++ x :: post ->
    NoDup (map id (pre ++ x :: post)) ->
    (List.length pre <= fuel)%nat ->
    sibling_loop fuel db (previous_in (id x) None (pre ++ x :: post)) acc
    = Some (acc + Z.of_nat (List.length (filter is_agenda_item pre))).
Proof.
  induction pre as [|y pre IH] using rev_ind;
    intros post x fuel acc Hsibs Hnd Hfuel.
  - simpl. rewrite Nat.eqb_refl. destruct fuel; simpl; f_equal; lia.
  - assert (Hx : ~ In (id x) (map id (pre ++ [y])))
      by (apply (key_not_before _ post), Hnd).
    rewrite previous_in_split by (auto; exact Hx).
    rewrite rev_app_distr. simpl.
    rewrite length_app in Hfuel. simpl in Hfuel.
    destruct fuel as [|fuel]; [lia|]. cbn [sibling_loop].
    assert (Hy : parent y = p).
    { apply (in_children_of p db y). rewrite Hsibs.
      apply in_or_app. left. apply in_or_app. right. left. reflexivity. }
    unfold get_previous_sibling. rewrite Hy, Hsibs, <- app_assoc.
    rewrite <- app_assoc in Hsibs, Hnd. simpl in Hsibs, Hnd. simpl.
    rewrite (IH (x :: post) y fuel) by (auto; lia).
    rewrite filter_app, length_app. simpl. fold (is_agenda_item y).
    destruct (is_agenda_item y); simpl; f_equal; lia.
Qed.

Lemma calc_sibling_no_position (self : Item) (db : ItemTable) :
  ids_unique db -> In self db ->
  _calc_sibling_no self db = Some (sibling_position self db).
Proof.
  intros Hnd Hin.
  assert (Hsib : In self (children_of (parent self) db))
    by (apply in_children_of; auto).
  destruct (in_split _ _ Hsib) as (pre0 & post0 & Hsplit0).
  (* the first row with this key is the row itself *)
  assert (Hnd' : NoDup (map id (children_of (parent self) db)))
    by (apply NoDup_map_id_filter, Hnd).
  assert (Hpre : ~ In (id self) (map id pre0))
    by (apply (key_not_before _ post0); rewrite <- Hsplit0; exact Hnd').
  unfold _calc_sibling_no, sibling_position, get_previous_sibling.
  rewrite Hsplit0 in *.
  rewrite (sibling_loop_walk db (parent self) pre0 post0 self); auto.
  - rewrite preceding_split by auto. f_equal. lia.
  - assert (List.length (children_of (parent self) db) <= List.length db)%nat
      by apply filter_length_le.
    rewrite Hsplit0, length_app in H. lia.
Qed.

(** ** The number of an item *)

Lemma calc_item_no_rec_stable (system : string) (db : ItemTable) (self : Item)
  (n : nat) :
  has_level db self n ->
  forall f1 f2, (n < f1)%nat -> (n < f2)%nat ->
    calc_item_no_rec f1 system self db = calc_item_no_rec f2 system self db.
Proof.
  induction 1 as [r Hr|r pr p n Hp Hget Hn IH]; intros f1 f2 H1 H2;
    (destruct f1 as [|f1]; [lia|]); (destruct f2 as [|f2]; [lia|]);
    cbn [calc_item_no_rec]; unfold is_root_node.
  - rewrite Hr. reflexivity.
  - rewrite Hp, Hget. cbn [is_none].
    rewrite (IH f1 f2) by lia. reflexivity.
Qed.

Lemma calc_item_no_rec_some (system : string) (db : ItemTable) (self : Item)
  (n : nat) :
  ids_unique db -> In self db -> has_level db self n ->
  forall fuel, (n < fuel)%nat ->
    exists number, calc_item_no_rec fuel system self db = Some number.
Proof.
  intros Hnd Hin Hn. induction Hn as [r Hr|r pr p n Hp Hget Hn IH];
    intros fuel Hfuel; (destruct fuel as [|fuel]; [lia|]);
    cbn [calc_item_no_rec]; unfold is_root_node;
    rewrite (calc_sibling_no_position _ _ Hnd Hin).
  - rewrite Hr. cbn [is_none].
    destruct (type r); [|eauto]. destruct (String.eqb system "arabic"); eauto.
  - rewrite Hp, Hget. cbn [is_none]. destruct (type r); [|eauto].
    destruct (IH (proj1 (objects_get_in _ _ _ Hget)) fuel) as [s Hs]; [lia|].
    rewrite Hs. eauto.
Qed.

(** C2, as amended.  In a table with distinct keys, for an item that reaches
    a root by parent links: an organizational item has the empty number; an
    agenda item at the root has its sibling position formatted in the
    configured numeral system; an agenda item below a parent has the
    parent's number, a dot, and its sibling position in decimal digits,
    whatever the numeral system.  The sibling position counts the agenda
    items among the siblings before the item, plus one. *)
Theorem calc_item_no_cases (system : string) (self : Item) (db : ItemTable)
  (n : nat) :
  ids_unique db -> In self db -> has_level db self n ->
  (type self = ORGANIZATIONAL_ITEM ->
   calc_item_no system self db = Some EmptyString)
  /\ (type self = AGENDA_ITEM -> parent self = None ->
      calc_item_no system self db
      = Some (NumberFormatter_format (sibling_position self db) system))
  /\ (type self = AGENDA_ITEM -> forall p, parent self = Some p ->
      exists parent_item parent_no,
        objects_get p db = Some parent_item
        /\ calc_item_no system parent_item db = Some parent_no
        /\ calc_item_no system self db
           = Some (parent_no ++ "." ++ str (sibling_position self db))%string).
Proof.
  intros Hnd Hin Hn. pose proof (has_level_bound db self n Hin Hn) as Hlen.
  unfold calc_item_no.
  destruct (List.length db) as [|fuel] eqn:Efuel; [lia|].
  split; [|split].
  - intros Ht. cbn [calc_item_no_rec]. rewrite Ht. reflexivity.
  - intros Ht Hp. cbn [calc_item_no_rec]. unfold is_root_node.
    rewrite Ht, Hp. cbn [is_none].
    rewrite (calc_sibling_no_position _ _ Hnd Hin).
    unfold NumberFormatter_format.
    destruct (String.eqb system "arabic"); reflexivity.
  - intros Ht p Hp. inversion Hn as [r Hr|r pr p' m Hp' Hget Hm]; subst;
      [congruence|].
    assert (p' = p) by congruence. subst p'.
    destruct (objects_get_in _ _ _ Hget) as [Hpin _].
    destruct (calc_item_no_rec_some system db pr m Hnd Hpin Hm (S fuel))
      as [parent_no Hno]; [lia|].
    exists pr, parent_no. split; [exact Hget|]. split; [exact Hno|].
    cbn [calc_item_no_rec]. unfold is_root_node.
    rewrite Ht, Hp, Hget. cbn [is_none].
    rewrite (calc_item_no_rec_stable system db pr m Hm fuel (S fuel)) by lia.
    rewrite Hno, (calc_sibling_no_position _ _ Hnd Hin). reflexivity.
Qed.

Lemma agenda_ids_unique : ids_unique agenda.
Proof.
  unfold ids_unique. simpl.
  repeat (constructor; [simpl; intuition discriminate|]). constructor.
Qed.

Lemma calc_item_no_cases_witness :
  exists parent_item parent_no,
    objects_get 3 agenda = Some parent_item
    /\ calc_item_no "roman" parent_item agenda = Some parent_no
    /\ calc_item_no "roman" motion_b agenda
       = Some (parent_no ++ "." ++ str (sibling_position motion_b agenda))%string.
Proof.
  refine (proj2 (proj2 (calc_item_no_cases "roman" motion_b agenda 1
                          agenda_ids_unique _ _)) eq_refl 3%nat eq_refl).
  - simpl. auto 10.
  - apply (level_child agenda motion_b motions 3 0); try reflexivity.
    apply level_root. reflexivity.
Defined.

(** C2 as stated fails under the roman system: the first agenda item below
    the second agenda item of the root gets the number "II.1", where the
    spec's wording asks for "II.I". *)
Lemma item_number_roman_counterexample :
  calc_item_no "roman" motion_a agenda = Some "II.1"%string
  /\ itemNumber_spec (List.length agenda) "roman" motion_a agenda
     = Some "II.I"%string
  /\ calc_item_no "roman" motion_a agenda
     <> itemNumber_spec (List.length agenda) "roman" motion_a agenda.
Proof.
  split; [reflexivity|]. split; [reflexivity|]. discriminate.
Qed.


(** ** Deleting an item *)






Lemma in_rebuild (r : Item) (db : ItemTable) : In r (rebuild db) <-> In r db.
Proof. apply OrderByFacts.in_order_by. Qed.


(** *** Saving the moved children *)

Lemma save_replace (row c : Item) (db : ItemTable) :
  ids_unique db -> In c db -> id row = id c ->
  save row db = map (fun r => if (id r =? id c)%nat then row else r) db.
Proof.
  unfold ids_unique. intros Hnd Hin Hid.
  induction db as [|r db IH]; [contradiction|].
  simpl in Hnd. apply NoDup_cons_iff in Hnd as [Hr Hnd].
  cbn [save map]. rewrite Hid.
  destruct (Nat.eqb_spec (id r) (id c)) as [E|E].
  - f_equal. rewrite <- (map_id db) at 1. apply map_ext_in.
    intros x Hx. destruct (Nat.eqb_spec (id x) (id c)) as [Ex|Ex];
      [|reflexivity].
    exfalso. apply Hr. rewrite E, <- Ex. apply in_map. exact Hx.
  - destruct Hin as [->|Hin]; [congruence|].
    rewrite <- Hid, (IH Hnd Hin). rewrite Hid. reflexivity.
Qed.

Lemma fold_save (mv : Item -> Item) :
  (forall c, id (mv c) = id c) ->
  forall (l : list Item) (db : ItemTable),
    ids_unique db -> NoDup (map id l) -> incl l db ->
    fold_left (fun d c => save (mv c) d) l db
    = map (fun r => if existsb (fun c => (id c =? id r)%nat) l
                    then mv r else r) db.
Proof.
  intros Hmv. induction l as [|c l IH]; intros db Hnd Hl Hincl.
  - simpl. symmetry. apply map_id.
  - simpl in Hl. apply NoDup_cons_iff in Hl as [Hc Hl].
    assert (Hcin : In c db) by (apply Hincl; left; reflexivity).
    cbn [fold_left]. rewrite (save_replace (mv c) c db Hnd Hcin (Hmv c)).
    rewrite IH.
    + rewrite map_map. apply map_ext_in. intros r Hr. cbn [existsb].
      destruct (Nat.eqb_spec (id r) (id c)) as [E|E].
      * assert (r = c) by (apply (same_id_same_row db); assumption).
        subst r. rewrite Nat.eqb_refl. cbn [orb].
        destruct (existsb _ l) eqn:Ex; [|reflexivity].
        exfalso. apply Hc. apply existsb_exists in Ex as (x & Hx & Hxid).
        apply Nat.eqb_eq in Hxid. rewrite Hmv in Hxid. rewrite <- Hxid.
        apply in_map. exact Hx.
      * destruct (Nat.eqb_spec (id c) (id r)); [congruence|reflexivity].
    + unfold ids_unique in *. rewrite map_map.
      erewrite map_ext; [exact Hnd|].
      intros r. cbn. destruct (Nat.eqb_spec (id r) (id c)) as [E|E];
        [rewrite Hmv; congruence|reflexivity].
    + exact Hl.
    + intros x Hx. apply in_map_iff. exists x. split.
      * destruct (Nat.eqb_spec (id x) (id c)) as [E|E]; [|reflexivity].
        exfalso. apply Hc. rewrite <- E. apply in_map. exact Hx.
      * apply Hincl. right. exact Hx.
Qed.

Lemma was_child_parent (self : Item) (db : ItemTable) (r : Item) :
  ids_unique db -> In r db ->
  was_child self db r = option_nat_eqb (parent r) (Some (id self)).
Proof.
  intros Hnd Hin. unfold was_child, get_children.
  destruct (option_nat_eqb (parent r) (Some (id self))) eqn:E.
  - apply existsb_exists. exists r. split; [|apply Nat.eqb_refl].
    apply in_children_of. split; [exact Hin|].
    apply option_nat_eqb_eq. exact E.
  - destruct (existsb _ _) eqn:Ex; [|reflexivity].
    apply existsb_exists in Ex as (c & Hc & Hid).
    apply Nat.eqb_eq in Hid. apply in_children_of in Hc as [Hcin Hp].
    assert (c = r) by (apply (same_id_same_row db); assumption).
    subst c. apply option_nat_eqb_eq in Hp. congruence.
Qed.

(** The loop of [delete] over the children amounts to one pass over the
    table that gives every child of [self] the parent of [self]. *)
Lemma children_moved (self : Item) (db : ItemTable) :
  ids_unique db ->
  fold_left (fun d child => save (move_to child (parent self)) d)
            (get_children self db) db
  = map (reparented self) db.
Proof.
  intros Hnd.
  rewrite (fold_save (fun c => move_to c (parent self))).
  - apply map_ext_in. intros r Hr. unfold reparented.
    fold (was_child self db r). rewrite (was_child_parent self db r Hnd Hr).
    reflexivity.
  - reflexivity.
  - exact Hnd.
  - apply NoDup_map_id_filter, Hnd.
  - intros x Hx. apply in_children_of in Hx as [Hx _]. exact Hx.
Qed.

(** *** The cascade *)

Lemma descends_from_below (fuel : nat) (db : ItemTable) (pk : nat) (r : Item) :
  descends_from fuel db pk r = true -> below db pk r.
Proof.
  revert r. induction fuel as [|fuel IH]; intros r; simpl; [discriminate|].
  destruct (parent r) as [p|] eqn:Hp; [|discriminate].
  destruct (Nat.eqb_spec p pk) as [->|Hpk]; simpl.
  - intros _. apply below_child. exact Hp.
  - destruct (objects_get p db) as [pr|] eqn:Hget; [|discriminate].
    intros H. apply (below_further db pk r pr p Hp Hget). apply IH, H.
Qed.

Lemma below_descends_from (db : ItemTable) (pk : nat) (r : Item) :
  below db pk r ->
  forall n, has_level db r n ->
  forall fuel, (n < fuel)%nat -> descends_from fuel db pk r = true.
Proof.
  induction 1 as [r Hp|r pr p Hp Hget Hb IH]; intros n Hn fuel Hfuel;
    (destruct fuel as [|fuel]; [lia|]); simpl; rewrite Hp.
  - rewrite Nat.eqb_refl. reflexivity.
  - rewrite Hget. inversion Hn as [r0 Hr|r0 pr' p' m Hp' Hget' Hm]; subst;
      [congruence|].
    assert (p' = p) by congruence. subst p'.
    assert (pr' = pr) by congruence. subst pr'.
    rewrite (IH m Hm fuel) by lia. apply orb_true_r.
Qed.

Lemma self_not_own_parent (self : Item) (db : ItemTable) :
  is_forest db -> In self db -> parent self <> Some (id self).
Proof.
  intros [Hnd Hlev] Hin Hp. destruct (Hlev self Hin) as [n Hn].
  inversion Hn as [r Hr|r pr p m Hp' Hget Hm]; subst; [congruence|].
  assert (p = id self) by congruence. subst p.
  rewrite (objects_get_unique db self Hnd Hin) in Hget.
  injection Hget as <-.
  pose proof (has_level_fun db self _ _ Hn Hm). lia.
Qed.

Lemma id_reparented (self r : Item) : id (reparented self r) = id r.
Proof.
  unfold reparented. destruct (option_nat_eqb _ _); reflexivity.
Qed.

Lemma parent_reparented (self : Item) (db : ItemTable) (r : Item) :
  is_forest db -> In self db ->
  parent (reparented self r) <> Some (id self).
Proof.
  intros Hf Hin. unfold reparented.
  destruct (option_nat_eqb (parent r) (Some (id self))) eqn:E.
  - cbn. apply (self_not_own_parent self db); assumption.
  - intros H. apply option_nat_eqb_eq in H. congruence.
Qed.

(** Once the children are moved away, nothing is left below [self]. *)
Lemma nothing_below_after_move (self : Item) (db : ItemTable) (fuel : nat) :
  is_forest db -> In self db ->
  forall r, In r (map (reparented self) db) ->
    descends_from fuel (map (reparented self) db) (id self) r = false.
Proof.
  intros Hf Hin. induction fuel as [|fuel IH]; intros r Hr; simpl;
    [reflexivity|].
  destruct (parent r) as [p|] eqn:Hp; [|reflexivity].
  apply in_map_iff in Hr as (r0 & <- & Hr0).
  destruct (Nat.eqb_spec p (id self)) as [->|Hpk].
  - exfalso. exact (parent_reparented self db r0 Hf Hin Hp).
  - simpl. destruct (objects_get p _) as [pr|] eqn:Hget; [|reflexivity].
    apply IH. apply (objects_get_in _ _ _ Hget).
Qed.

Lemma delete_without_children_eq (self : Item) (db : ItemTable) :
  is_forest db -> In self db ->
  delete self false db
  = rebuild (filter (fun r => negb (id r =? id self)%nat)
                    (map (reparented self) db)).
Proof.
  intros Hf Hin. unfold delete. cbn [negb].
  rewrite (children_moved self db (proj1 Hf)). unfold model_delete.
  f_equal. apply filter_ext_in. intros r Hr.
  rewrite (nothing_below_after_move self db _ Hf Hin r Hr).
  rewrite orb_false_r. reflexivity.
Qed.





Lemma agenda_is_forest : is_forest agenda.
Proof.
  split; [exact agenda_ids_unique|].
  assert (H3 : has_level agenda motions 0) by (apply level_root; reflexivity).
  intros r Hr. simpl in Hr.
  destruct Hr as [<-|[<-|[<-|[<-|[<-|[<-|[]]]]]]].
  - exists O. apply level_root. reflexivity.
  - exists 1%nat. apply (level_child agenda motion_a motions 3 0); auto.
  - exists O. apply level_root. reflexivity.
  - exists 1%nat. apply (level_child agenda lunch motions 3 0); auto.
  - exists O. exact H3.
  - exists 1%nat. apply (level_child agenda motion_b motions 3 0); auto.
Qed.


(** The numerals listed among the testable properties of the spec. *)
Example to_roman_samples :
  map to_roman [1; 4; 9; 14; 40; 1994]
  = ["I"; "IV"; "IX"; "XIV"; "XL"; "MCMXCIV"]%string.
Proof. reflexivity. Qed.

Example calc_item_no_arabic :
  map (fun r => calc_item_no "arabic" r agenda) agenda
  = [Some "1"; Some "2.1"; Some ""; Some ""; Some "2"; Some "2.2"]%string.
Proof. reflexivity. Qed.

Example calc_item_no_roman :
  map (fun r => calc_item_no "roman" r agenda) agenda
  = [Some "I"; Some "II.1"; Some ""; Some ""; Some "II"; Some "II.2"]%string.
Proof. reflexivity. Qed.

Example delete_without_children :
  map (fun r => (id r, parent r)) (delete motions false agenda)
  = [(1, None); (4, None); (2, None); (5, None); (6, None)]%nat.
Proof. reflexivity. Qed.

Example delete_with_children :
  map (fun r => (id r, parent r)) (delete motions true agenda)
  = [(1, None); (2, None)]%nat.
Proof. reflexivity. Qed.

End AgendaFacts.

(* ------------------------------------------------------------------ *)
(** ** Further properties of the agenda tree *)

Module AgendaMore.
Import Utils Agenda AgendaSpec Samples AgendaFacts.

(** ** Validation *)

Lemma item_type_eqb_eq (a b : item_type) :
  item_type_eqb a b = true <-> a = b.
Proof. destruct a, b; simpl; split; congruence. Qed.

Lemma clean_parent_type_ok (db : ItemTable) (r : Item) :
  clean r db = inr tt -> parent_type_ok db r.
Proof.
  unfold clean, parent_type_ok. intros H Ht p Hp. rewrite Ht, Hp in H.
  cbn [item_type_eqb] in H.
  destruct (objects_get p db) as [pr|]; [|discriminate].
  exists pr. split; [reflexivity|].
  destruct (type pr); [reflexivity|discriminate].
Qed.

(** When every row passes the test on its parent, whatever is below an
    organizational item is organizational. *)
Lemma organizational_below_organizational (db : ItemTable) (o d : Item) :
  ids_unique db -> (forall r, In r db -> parent_type_ok db r) ->
  In o db -> type o = ORGANIZATIONAL_ITEM ->
  below db (id o) d -> In d db -> type d = ORGANIZATIONAL_ITEM.
Proof.
  intros Hnd Hok Ho Hto Hb.
  induction Hb as [d Hp|d pr p Hp Hget Hb IH]; intros Hd;
    destruct (type d) eqn:Htd; try reflexivity; exfalso;
    destruct (Hok d Hd Htd _ Hp) as (pr' & Hget' & Htp).
  - rewrite (objects_get_unique db o Hnd Ho) in Hget'.
    injection Hget' as <-. congruence.
  - assert (pr' = pr) by congruence. subst pr'.
    rewrite IH in Htp; [discriminate|].
    apply (objects_get_in _ _ _ Hget).
Qed.

Lemma parent_test_all_clean (db : ItemTable) :
  ids_unique db -> (forall r, In r db -> parent_type_ok db r) ->
  all_clean db.
Proof.
  intros Hnd Hok r Hr. unfold clean.
  destruct (type r) eqn:Ht; cbn [item_type_eqb andb].
  - destruct (parent r) as [p|] eqn:Hp; [|reflexivity].
    destruct (Hok r Hr Ht p Hp) as (pr & -> & ->). reflexivity.
  - destruct (existsb _ (get_descendants r db)) eqn:Ex; [|reflexivity].
    exfalso. apply existsb_exists in Ex as (d & Hd & Htd).
    apply item_type_eqb_eq in Htd.
    unfold get_descendants in Hd. apply filter_In in Hd as [Hd Hdesc].
    apply descends_from_below in Hdesc.
    rewrite (organizational_below_organizational db r d) in Htd;
      auto; discriminate.
Qed.

(** X1.  In a table with distinct keys, all rows pass [clean] exactly when
    all rows pass the test that [clean] makes on the parent: then no
    organizational item has an agenda item below it at any depth, so the
    test on the descendants cannot fail. *)
Theorem clean_all_iff_parent_test (db : ItemTable) :
  ids_unique db ->
  (all_clean db <-> forall r, In r db -> parent_type_ok db r).
Proof.
  intros Hnd. split.
  - intros Hall r Hr. apply clean_parent_type_ok, Hall, Hr.
  - apply parent_test_all_clean, Hnd.
Qed.

Lemma agenda_all_clean : all_clean agenda.
Proof.
  intros r Hr. simpl in Hr.
  destruct Hr as [<-|[<-|[<-|[<-|[<-|[<-|[]]]]]]]; reflexivity.
Qed.

Lemma clean_all_iff_parent_test_witness :
  all_clean agenda /\ parent_type_ok agenda motion_a.
Proof.
  split; [exact agenda_all_clean|].
  apply (proj1 (clean_all_iff_parent_test agenda agenda_ids_unique)
           agenda_all_clean).
  simpl. auto 10.
Defined.

(** ** What a deletion keeps *)

Lemma reparented_other (self r : Item) (p : nat) :
  parent r = Some p -> p <> id self -> reparented self r = r.
Proof.
  intros Hp Hne. unfold reparented. rewrite Hp. simpl.
  destruct (Nat.eqb_spec p (id self)); [contradiction|reflexivity].
Qed.

Lemma reparented_root (self r : Item) :
  parent r = None -> reparented self r = r.
Proof. intros Hp. unfold reparented. rewrite Hp. reflexivity. Qed.

Lemma reparented_child (self r : Item) :
  parent r = Some (id self) ->
  reparented self r = set_parent r (parent self).
Proof.
  intros Hp. unfold reparented. rewrite Hp. simpl.
  rewrite Nat.eqb_refl. reflexivity.
Qed.

Lemma type_reparented (self r : Item) : type (reparented self r) = type r.
Proof. unfold reparented. destruct (option_nat_eqb _ _); reflexivity. Qed.

Lemma ids_unique_rebuild (db : ItemTable) :
  ids_unique db -> ids_unique (rebuild db).
Proof.
  unfold ids_unique, rebuild. intros H.
  apply (Permutation_NoDup (l := map id db)); [|exact H].
  apply Permutation_map. symmetry. apply OrderByFacts.order_by_permutation.
Qed.

Lemma ids_unique_delete (self : Item) (with_children : bool)
  (db : ItemTable) :
  ids_unique db -> ids_unique (delete self with_children db).
Proof.
  intros Hnd. unfold delete. apply ids_unique_rebuild.
  unfold model_delete, ids_unique. apply NoDup_map_id_filter.
  destruct with_children; cbn [negb]; [exact Hnd|].
  rewrite (children_moved self db Hnd), map_map.
  erewrite map_ext; [exact Hnd|]. intros r. apply id_reparented.
Qed.

Lemma in_delete_without_children (self : Item) (db : ItemTable) (r : Item) :
  is_forest db -> In self db ->
  (In r (delete self false db) <->
   exists r0, In r0 db /\ id r0 <> id self /\ r = reparented self r0).
Proof.
  intros Hf Hin. rewrite (delete_without_children_eq self db Hf Hin).
  rewrite in_rebuild, filter_In, in_map_iff. split.
  - intros [(r0 & <- & Hr0) Hid]. exists r0.
    rewrite id_reparented in Hid. repeat split; auto.
    intros E. rewrite E, Nat.eqb_refl in Hid. discriminate.
  - intros (r0 & Hr0 & Hid & ->). split; [eauto|].
    rewrite id_reparented. destruct (Nat.eqb_spec (id r0) (id self));
      [contradiction|reflexivity].
Qed.

Lemma in_delete_with_children (self : Item) (db : ItemTable) (r : Item) :
  is_forest db ->
  (In r (delete self true db) <->
   In r db /\ id r <> id self /\ ~ below db (id self) r).
Proof.
  intros [Hnd Hlev]. unfold delete. cbn [negb]. unfold model_delete.
  rewrite in_rebuild, filter_In, negb_true_iff, orb_false_iff. split.
  - intros (Hr & Hid & Hd). repeat split; auto.
    + intros E. rewrite E, Nat.eqb_refl in Hid. discriminate.
    + intros Hb. destruct (Hlev r Hr) as [n Hn].
      rewrite (below_descends_from db (id self) r Hb n Hn) in Hd;
        [discriminate|].
      apply (has_level_bound db r n Hr Hn).
  - intros (Hr & Hid & Hb). repeat split; auto.
    + destruct (Nat.eqb_spec (id r) (id self)); [contradiction|reflexivity].
    + destruct (descends_from _ db (id self) r) eqn:E; [|reflexivity].
      exfalso. apply Hb. apply (descends_from_below _ _ _ _ E).
Qed.

(** The row of a key other than that of [self], after a deletion without
    children. *)
Lemma objects_get_delete_without_children (self : Item) (db : ItemTable)
  (x : Item) :
  is_forest db -> In self db -> In x db -> id x <> id self ->
  objects_get (id x) (delete self false db) = Some (reparented self x).
Proof.
  intros Hf Hin Hx Hne. rewrite <- (id_reparented self x).
  apply objects_get_unique.
  - apply ids_unique_delete, Hf.
  - apply in_delete_without_children; eauto.
Qed.

Lemma level_after_delete_without_children (self : Item) (db : ItemTable) :
  is_forest db -> In self db ->
  forall n r, In r db -> id r <> id self -> has_level db r n ->
    exists m, has_level (delete self false db) (reparented self r) m.
Proof.
  intros Hf Hin. pose proof Hf as [Hnd _].
  induction n as [n IH] using lt_wf_ind. intros r Hr Hne Hn.
  inversion Hn as [r0 Hroot|r0 pr p n' Hp Hget Hn']; subst.
  - exists O. rewrite (reparented_root self r Hroot).
    apply level_root. exact Hroot.
  - destruct (objects_get_in _ _ _ Hget) as [Hprin Hprid].
    destruct (Nat.eq_dec p (id self)) as [->|Hpne].
    + assert (pr = self)
        by (apply (same_id_same_row db); assumption).
      subst pr. rewrite (reparented_child self r Hp).
      inversion Hn' as [s Hsroot|s qr q n'' Hq Hgetq Hn'']; subst.
      * exists O. apply level_root. exact Hsroot.
      * destruct (objects_get_in _ _ _ Hgetq) as [Hqin Hqid].
        assert (Hqne : id qr <> id self).
        { rewrite Hqid. intros ->.
          exact (self_not_own_parent self db Hf Hin Hq). }
        destruct (IH n'' ltac:(lia) qr Hqin Hqne Hn'') as [m Hm].
        exists (S m).
        apply (level_child _ _ (reparented self qr) q m); [exact Hq| |exact Hm].
        rewrite <- Hqid.
        apply objects_get_delete_without_children; assumption.
    + rewrite (reparented_other self r p Hp Hpne).
      assert (Hprne : id pr <> id self) by congruence.
      destruct (IH n' ltac:(lia) pr Hprin Hprne Hn') as [m Hm].
      exists (S m).
      apply (level_child _ _ (reparented self pr) p m); [exact Hp| |exact Hm].
      rewrite <- Hprid.
      apply objects_get_delete_without_children; assumption.
Qed.

Lemma level_after_delete_with_children (self : Item) (db : ItemTable) :
  is_forest db ->
  forall n r, has_level db r n ->
    In r db -> id r <> id self -> ~ below db (id self) r ->
    has_level (delete self true db) r n.
Proof.
  intros Hf. pose proof Hf as [Hnd _].
  induction 1 as [r Hroot|r pr p n Hp Hget Hn IH]; intros Hr Hne Hnb.
  - apply level_root. exact Hroot.
  - destruct (objects_get_in _ _ _ Hget) as [Hprin Hprid].
    assert (Hpne : id pr <> id self).
    { rewrite Hprid. intros ->. apply Hnb, below_child, Hp. }
    assert (Hprnb : ~ below db (id self) pr).
    { intros Hb. apply Hnb. exact (below_further db _ r pr p Hp Hget Hb). }
    apply (level_child _ _ pr p n); [exact Hp| |apply IH; assumption].
    rewrite <- Hprid. apply objects_get_unique.
    + apply ids_unique_delete, Hnd.
    + apply in_delete_with_children; auto.
Qed.

(** X2.  Deleting a row of a forest, with or without its children, leaves a
    forest: the keys stay distinct, no parent link dangles and none closes a
    cycle. *)
Theorem delete_keeps_forest (self : Item) (with_children : bool)
  (db : ItemTable) :
  is_forest db -> In self db -> is_forest (delete self with_children db).
Proof.
  intros Hf Hin. pose proof Hf as [Hnd Hlev].
  split; [apply ids_unique_delete, Hnd|].
  intros r Hr. destruct with_children.
  - apply in_delete_with_children in Hr as (Hr & Hne & Hnb); [|exact Hf].
    destruct (Hlev r Hr) as [n Hn]. exists n.
    apply level_after_delete_with_children; assumption.
  - apply in_delete_without_children in Hr as (r0 & Hr0 & Hne & ->);
      [|exact Hf|exact Hin].
    destruct (Hlev r0 Hr0) as [n Hn].
    apply (level_after_delete_without_children self db Hf Hin n); assumption.
Qed.

Lemma delete_keeps_forest_witness :
  is_forest (delete motions false agenda)
  /\ is_forest (delete motions true agenda).
Proof.
  assert (Hin : In motions agenda) by (simpl; auto 10).
  split; apply delete_keeps_forest; auto using agenda_is_forest.
Defined.

(** X3.  Deleting a row of a forest in which every row passes [clean], with
    or without its children, leaves a table in which every row passes
    [clean]: moving the children up to the parent of the deleted row never
    puts an agenda item below an organizational item. *)
Theorem delete_keeps_clean (self : Item) (with_children : bool)
  (db : ItemTable) :
  is_forest db -> all_clean db -> In self db ->
  all_clean (delete self with_children db).
Proof.
  intros Hf Hclean Hin. pose proof Hf as [Hnd Hlev].
  assert (Hok : forall r, In r db -> parent_type_ok db r)
    by (intros r Hr; apply clean_parent_type_ok, Hclean, Hr).
  apply parent_test_all_clean; [apply ids_unique_delete, Hnd|].
  intros r Hr Ht q Hq. destruct with_children.
  - apply in_delete_with_children in Hr as (Hr & Hne & Hnb); [|exact Hf].
    destruct (Hok r Hr Ht q Hq) as (qr & Hget & Htq).
    destruct (objects_get_in _ _ _ Hget) as [Hqin Hqid].
    exists qr. split; [|exact Htq].
    rewrite <- Hqid. apply objects_get_unique.
    + apply ids_unique_delete, Hnd.
    + apply in_delete_with_children; [exact Hf|]. repeat split; auto.
      * rewrite Hqid. intros ->. apply Hnb, below_child, Hq.
      * intros Hb. apply Hnb.
        exact (below_further db _ r qr q Hq Hget Hb).
  - apply in_delete_without_children in Hr as (r0 & Hr0 & Hne & ->);
      [|exact Hf|exact Hin].
    rewrite type_reparented in Ht.
    destruct (parent r0) as [p|] eqn:Hp;
      [|rewrite (reparented_root self r0 Hp) in Hq; congruence].
    destruct (Hok r0 Hr0 Ht p Hp) as (pr & Hget & Htp).
    destruct (objects_get_in _ _ _ Hget) as [Hprin Hprid].
    destruct (Nat.eq_dec p (id self)) as [->|Hpne].
    + assert (pr = self)
        by (apply (same_id_same_row db); assumption).
      subst pr. rewrite (reparented_child self r0 Hp) in Hq. cbn in Hq.
      destruct (Hok self Hin Htp q Hq) as (qr & Hgetq & Htq).
      destruct (objects_get_in _ _ _ Hgetq) as [Hqin Hqid].
      exists (reparented self qr). rewrite type_reparented.
      split; [|exact Htq]. rewrite <- Hqid.
      apply objects_get_delete_without_children; auto.
      rewrite Hqid. intros ->.
      exact (self_not_own_parent self db Hf Hin Hq).
    + rewrite (reparented_other self r0 p Hp Hpne) in Hq.
      assert (q = p) by congruence. subst q.
      exists (reparented self pr). rewrite type_reparented.
      split; [|exact Htp]. rewrite <- Hprid.
      apply objects_get_delete_without_children; auto. congruence.
Qed.

Lemma delete_keeps_clean_witness :
  all_clean (delete motions false agenda)
  /\ all_clean (delete motions true agenda).
Proof.
  assert (Hin : In motions agenda) by (simpl; auto 10).
  split; apply delete_keeps_clean;
    auto using agenda_is_forest, agenda_all_clean.
Defined.

(** ** Numbers *)

Lemma positions_consecutive (sibs : list Item) :
  NoDup (map id sibs) ->
  forall pre rest, sibs = pre ++ rest ->
    map (fun r => 1 + Z.of_nat (List.length
                                  (filter is_agenda_item
                                     (preceding (id r) sibs))))
        (filter is_agenda_item rest)
    = map Z.of_nat
        (seq (1 + List.length (filter is_agenda_item pre))
             (List.length (filter is_agenda_item rest))).
Proof.
  intros Hnd pre rest. revert pre.
  induction rest as [|x rest IH]; intros pre Hs; [reflexivity|].
  assert (Hpre : preceding (id x) sibs = pre).
  { rewrite Hs. apply preceding_split; [reflexivity|].
    apply (key_not_before pre rest). rewrite <- Hs. exact Hnd. }
  assert (Hs' : sibs = (pre ++ [x]) ++ rest)
    by (rewrite <- app_assoc; exact Hs).
  specialize (IH (pre ++ [x]) Hs').
  rewrite filter_app, length_app in IH. cbn [filter] in *.
  destruct (is_agenda_item x); cbn [List.length map seq] in *.
  - rewrite Hpre. f_equal; [lia|].
    rewrite IH. f_equal. f_equal. lia.
  - rewrite IH. f_equal. f_equal. lia.
Qed.

(** X4.  In a table with distinct keys, the agenda items below one parent
    (or at the root) get the sibling numbers 1, 2, 3, ... in index order,
    without gap or repetition, whatever organizational items stand between
    them. *)
Theorem agenda_siblings_numbered (db : ItemTable) (p : option nat) :
  ids_unique db ->
  map (fun r => _calc_sibling_no r db)
      (filter is_agenda_item (children_of p db))
  = map (fun k => Some (Z.of_nat k))
        (seq 1 (List.length (filter is_agenda_item (children_of p db)))).
Proof.
  intros Hnd.
  rewrite (map_ext_in _
             (fun r => Some (1 + Z.of_nat
                               (List.length
                                  (filter is_agenda_item
                                     (preceding (id r) (children_of p db))))))).
  - pose proof (positions_consecutive (children_of p db)
                  (NoDup_map_id_filter _ db Hnd) [] _ eq_refl) as H.
    cbn [filter List.length Nat.add] in H.
    rewrite <- (map_map _ Some), H, map_map. reflexivity.
  - intros r Hr. apply filter_In in Hr as [Hr _].
    apply in_children_of in Hr as [Hr Hp].
    rewrite (calc_sibling_no_position r db Hnd Hr).
    unfold sibling_position. rewrite Hp. reflexivity.
Qed.

Lemma agenda_siblings_numbered_witness :
  map (fun r => _calc_sibling_no r agenda)
      (filter is_agenda_item (children_of (Some 3%nat) agenda))
  = [Some 1; Some 2].
Proof.
  exact (agenda_siblings_numbered agenda (Some 3%nat) agenda_ids_unique).
Defined.

Lemma calc_item_no_rec_not_arabic (system : string) (db : ItemTable) :
  String.eqb system "arabic" = false ->
  forall fuel self,
    calc_item_no_rec fuel system self db
    = calc_item_no_rec fuel "roman" self db.
Proof.
  intros Hs. induction fuel as [|fuel IH]; intros self; [reflexivity|].
  cbn [calc_item_no_rec]. rewrite Hs.
  destruct (type self); [|reflexivity].
  destruct (is_root_node self); [reflexivity|].
  destruct (parent self) as [p|]; [|reflexivity].
  destruct (objects_get p db) as [pr|]; [|reflexivity].
  rewrite IH. reflexivity.
Qed.

(** X5.  Any configured numeral system other than "arabic" is taken as
    roman: the number of every item is the one computed under "roman". *)
Theorem other_numeral_system_is_roman (system : string) (self : Item)
  (db : ItemTable) :
  String.eqb system "arabic" = false ->
  calc_item_no system self db = calc_item_no "roman" self db.
Proof.
  intros Hs. apply calc_item_no_rec_not_arabic, Hs.
Qed.

Lemma other_numeral_system_is_roman_witness :
  calc_item_no "Arabic" motion_a agenda = Some "II.1"%string.
Proof.
  rewrite (other_numeral_system_is_roman "Arabic" motion_a agenda eq_refl).
  reflexivity.
Defined.

Lemma string_append_assoc (a b c : string) :
  ((a ++ b) ++ c = a ++ (b ++ c))%string.
Proof. induction a as [|ch a IH]; simpl; [reflexivity|]. rewrite IH. reflexivity. Qed.

Lemma string_append_empty (a : string) : (a ++ "" = a)%string.
Proof. induction a as [|ch a IH]; simpl; [reflexivity|]. rewrite IH. reflexivity. Qed.

Lemma calc_item_no_rec_head (db : ItemTable) (self : Item) (n : nat) :
  ids_unique db -> has_level db self n -> In self db ->
  exists suffix,
    (forall system fuel, (n < fuel)%nat ->
       calc_item_no_rec fuel system self db = Some suffix)
    \/ (exists k, 1 <= k /\ forall system fuel, (n < fuel)%nat ->
          calc_item_no_rec fuel system self db
          = Some (NumberFormatter_format k system ++ suffix)%string).
Proof.
  intros Hnd Hn. induction Hn as [r Hroot|r pr p n Hp Hget Hn IH]; intros Hin.
  - destruct (type r) eqn:Ht.
    + exists EmptyString. right. exists (sibling_position r db).
      split; [unfold sibling_position; lia|].
      intros system fuel Hfuel. destruct fuel as [|fuel]; [lia|].
      cbn [calc_item_no_rec]. unfold is_root_node.
      rewrite Ht, Hroot, (calc_sibling_no_position r db Hnd Hin).
      cbn [is_none]. rewrite string_append_empty.
      unfold NumberFormatter_format.
      destruct (String.eqb system "arabic"); reflexivity.
    + exists EmptyString. left. intros system fuel Hfuel.
      destruct fuel as [|fuel]; [lia|].
      cbn [calc_item_no_rec]. rewrite Ht. reflexivity.
  - destruct (type r) eqn:Ht.
    + destruct (IH (proj1 (objects_get_in _ _ _ Hget)))
        as [suffix [Hsame|(k & Hk & Hhead)]].
      * exists (suffix ++ "." ++ str (sibling_position r db))%string. left.
        intros system fuel Hfuel. destruct fuel as [|fuel]; [lia|].
        cbn [calc_item_no_rec]. unfold is_root_node.
        rewrite Ht, Hp, Hget, (calc_sibling_no_position r db Hnd Hin).
        cbn [is_none]. rewrite Hsame by lia. reflexivity.
      * exists (suffix ++ "." ++ str (sibling_position r db))%string. right.
        exists k. split; [exact Hk|].
        intros system fuel Hfuel. destruct fuel as [|fuel]; [lia|].
        cbn [calc_item_no_rec]. unfold is_root_node.
        rewrite Ht, Hp, Hget, (calc_sibling_no_position r db Hnd Hin).
        cbn [is_none]. rewrite Hhead by lia.
        rewrite string_append_assoc. reflexivity.
    + exists EmptyString. left. intros system fuel Hfuel.
      destruct fuel as [|fuel]; [lia|].
      cbn [calc_item_no_rec]. rewrite Ht. reflexivity.
Qed.

(** X6.  The numeral system only shows in the first component of a number.
    For a row of a table with distinct keys that reaches a root by parent
    links, either the number is the same under every system, or it is the
    position [k] of an item at the root in the configured system, followed
    by a rest that does not depend on the system. *)
Theorem numeral_system_first_component (self : Item) (db : ItemTable)
  (n : nat) :
  ids_unique db -> In self db -> has_level db self n ->
  exists rest,
    (forall system, calc_item_no system self db = Some rest)
    \/ (exists k, 1 <= k /\ forall system,
          calc_item_no system self db
          = Some (NumberFormatter_format k system ++ rest)%string).
Proof.
  intros Hnd Hin Hn. pose proof (has_level_bound db self n Hin Hn) as Hlen.
  destruct (calc_item_no_rec_head db self n Hnd Hn Hin)
    as [rest [Hsame|(k & Hk & Hhead)]]; exists rest.
  - left. intros system. apply Hsame, Hlen.
  - right. exists k. split; [exact Hk|].
    intros system. apply Hhead, Hlen.
Qed.

Lemma numeral_system_first_component_witness :
  exists rest,
    (forall system, calc_item_no system motion_b agenda = Some rest)
    \/ (exists k, 1 <= k /\ forall system,
          calc_item_no system motion_b agenda
          = Some (NumberFormatter_format k system ++ rest)%string).
Proof.
  apply (numeral_system_first_component motion_b agenda 1).
  - exact agenda_ids_unique.
  - simpl. auto 10.
  - apply (level_child agenda motion_b motions 3 0); try reflexivity.
    apply level_root. reflexivity.
Defined.

(** ** Titles *)

Lemma item_no_truthy (number_prefix : string) (self : Item) (number : string) :
  item_no number_prefix self = Some number -> truthy number = true.
Proof.
  unfold item_no. destruct (truthy (item_number self)) eqn:En; [|discriminate].
  destruct (truthy number_prefix) eqn:Ep; intros H; injection H as <-.
  - destruct number_prefix; [discriminate|reflexivity].
  - exact En.
Qed.

(** X7.  [get_title] fails, with [NotImplementedError], exactly when the
    item has a related object without [get_agenda_title].  Otherwise the
    title is the agenda title (the title of the related object if there is
    one, else the item's own), alone when the item has no number (the
    configured prefix is never shown without a number), and after the
    number and a space when it has one; the number is shown with the
    prefix and a space before it when a prefix is configured. *)
Theorem get_title_cases (number_prefix : string) (self : Item)
  (content_object : option ContentObject) :
  (get_title number_prefix self content_object = inl NotImplementedError <->
   exists related, content_object = Some related
                   /\ get_agenda_title related = None)
  /\ (forall agenda_title,
        match content_object with
        | None => title self = agenda_title
        | Some related => get_agenda_title related = Some agenda_title
        end ->
        (item_number self = EmptyString ->
         get_title number_prefix self content_object = inr agenda_title)
        /\ (item_number self <> EmptyString ->
            number_prefix = EmptyString ->
            get_title number_prefix self content_object
            = inr (item_number self ++ " " ++ agenda_title)%string)
        /\ (item_number self <> EmptyString ->
            number_prefix <> EmptyString ->
            get_title number_prefix self content_object
            = inr ((number_prefix ++ " " ++ item_number self)
                   ++ " " ++ agenda_title)%string)).
Proof.
  split.
  - unfold get_title. split.
    + destruct content_object as [related|].
      * destruct (get_agenda_title related) eqn:E; [|eauto].
        destruct (item_no number_prefix self) as [number|];
          [destruct (truthy number)|]; discriminate.
      * destruct (item_no number_prefix self) as [number|];
          [destruct (truthy number)|]; discriminate.
    + intros (related & -> & ->). reflexivity.
  - intros agenda_title Htitle.
    assert (Hbody : get_title number_prefix self content_object
                    = match item_no number_prefix self with
                      | Some number => inr (number ++ " " ++ agenda_title)%string
                      | None => inr agenda_title
                      end).
    { unfold get_title.
      destruct content_object as [related|]; rewrite Htitle;
        destruct (item_no number_prefix self) as [number|] eqn:E;
        try reflexivity; rewrite (item_no_truthy _ _ _ E); reflexivity. }
    rewrite Hbody. unfold item_no, truthy.
    split; [|split].
    + intros ->. reflexivity.
    + intros Hn ->. destruct (String.eqb_spec (item_number self) "");
        [contradiction|reflexivity].
    + intros Hn Hp. destruct (String.eqb_spec (item_number self) "");
        [contradiction|].
      destruct (String.eqb_spec number_prefix ""); [contradiction|].
      reflexivity.
Qed.

Lemma get_title_cases_witness :
  get_title "TOP" (mkItem 1 "3a" "Budget" false AGENDA_ITEM None 1 false)
            (Some (mkContent (Some "Motion 7"%string) None))
  = inr "TOP 3a Motion 7"%string.
Proof.
  refine (proj2 (proj2 (proj2 (get_title_cases "TOP"
            (mkItem 1 "3a" "Budget" false AGENDA_ITEM None 1 false)
            (Some (mkContent (Some "Motion 7"%string) None)))
            "Motion 7"%string eq_refl)) _ _); discriminate.
Defined.

(** ** Siblings have different numbers *)

Lemma str_inj (a b : Z) : str a = str b -> a = b.
Proof.
  assert (Hread : forall z,
            match NilZero.int_of_string (str z) with
            | Some d => Z.of_int d
            | None => 0
            end = z).
  { intros z. unfold str. pose proof (DecimalZ.of_to z) as Hz.
    destruct (Z.to_int z) as [[| | | | | | | | | |]|[| | | | | | | | | |]]
      eqn:E;
      try (rewrite NilZero.isi by discriminate; exact Hz).
    - rewrite NilZero.isi_posnil. exact Hz.
    - rewrite NilZero.isi_negnil. exact Hz. }
  intros H. rewrite <- (Hread a), <- (Hread b), H. reflexivity.
Qed.

Lemma string_append_cancel (p a b : string) :
  (p ++ a = p ++ b)%string -> a = b.
Proof.
  induction p as [|ch p IH]; simpl; [auto|].
  intros H. injection H as H. auto.
Qed.

Lemma sibling_position_before (sibs pre mid post : list Item) (a b : Item) :
  NoDup (map id sibs) -> sibs = pre ++ a :: mid ++ b :: post ->
  is_agenda_item a = true ->
  Z.of_nat (List.length (filter is_agenda_item (preceding (id a) sibs)))
  < Z.of_nat (List.length (filter is_agenda_item (preceding (id b) sibs))).
Proof.
  intros Hnd Hs Ha.
  assert (Hpa : preceding (id a) sibs = pre).
  { rewrite Hs. apply preceding_split; [reflexivity|].
    apply (key_not_before pre (mid ++ b :: post)). rewrite <- Hs. exact Hnd. }
  assert (Hs' : sibs = (pre ++ a :: mid) ++ b :: post)
    by (rewrite <- app_assoc; exact Hs).
  assert (Hpb : preceding (id b) sibs = pre ++ a :: mid).
  { rewrite Hs'. apply preceding_split; [reflexivity|].
    apply (key_not_before _ post). rewrite <- Hs'. exact Hnd. }
  rewrite Hpa, Hpb, filter_app, length_app. cbn [filter]. rewrite Ha.
  simpl. lia.
Qed.

Lemma sibling_positions_differ (db : ItemTable) (a b : Item) :
  ids_unique db -> In a db -> In b db -> parent a = parent b -> a <> b ->
  is_agenda_item a = true -> is_agenda_item b = true ->
  sibling_position a db <> sibling_position b db.
Proof.
  intros Hnd Ha Hb Hp Hab Hta Htb. unfold sibling_position. rewrite <- Hp.
  set (sibs := children_of (parent a) db).
  assert (Hsnd : NoDup (map id sibs)) by (apply NoDup_map_id_filter, Hnd).
  assert (Hsa : In a sibs) by (apply in_children_of; auto).
  assert (Hsb : In b sibs) by (apply in_children_of; auto).
  destruct (in_split _ _ Hsa) as (pre & rest & Hs).
  rewrite Hs in Hsb. apply in_app_or in Hsb as [Hsb|[Hsb|Hsb]];
    [|congruence|].
  - destruct (in_split _ _ Hsb) as (pre' & mid & ->).
    rewrite <- app_assoc in Hs. cbn [app] in Hs.
    pose proof (sibling_position_before sibs pre' mid rest b a Hsnd Hs Htb).
    lia.
  - destruct (in_split _ _ Hsb) as (mid & post & ->).
    pose proof (sibling_position_before sibs pre mid post a b Hsnd Hs Hta).
    lia.
Qed.

(** X21.  In a table with distinct keys, two different agenda items below
    the same parent never get the same number, under any numeral system;
    the same holds for two agenda items at the root under the arabic
    system. *)
Theorem sibling_numbers_differ (system : string) (a b : Item)
  (db : ItemTable) (n m : nat) :
  ids_unique db -> In a db -> In b db ->
  has_level db a n -> has_level db b m ->
  type a = AGENDA_ITEM -> type b = AGENDA_ITEM ->
  parent a = parent b -> a <> b ->
  parent a <> None \/ system = "arabic"%string ->
  calc_item_no system a db <> calc_item_no system b db.
Proof.
  intros Hnd Ha Hb Hn Hm Hta Htb Hp Hab Hcase.
  assert (Hpos : sibling_position a db <> sibling_position b db).
  { apply sibling_positions_differ; auto;
      unfold is_agenda_item; [rewrite Hta|rewrite Htb]; reflexivity. }
  pose proof (has_level_bound db a n Ha Hn) as Hla.
  pose proof (has_level_bound db b m Hb Hm) as Hlb.
  unfold calc_item_no.
  destruct (List.length db) as [|fuel] eqn:Efuel; [lia|].
  cbn [calc_item_no_rec]. unfold is_root_node.
  rewrite Hta, Htb, <- Hp,
    (calc_sibling_no_position a db Hnd Ha),
    (calc_sibling_no_position b db Hnd Hb).
  destruct (parent a) as [p|] eqn:Hpa; cbn [is_none].
  - inversion Hn as [r Hr|r pr p' n' Hp' Hget Hn']; subst; [congruence|].
    assert (p' = p) by congruence. subst p'. rewrite Hget.
    destruct (calc_item_no_rec_some system db pr n' Hnd
                (proj1 (objects_get_in _ _ _ Hget)) Hn' fuel)
      as [parent_no Hno]; [lia|].
    rewrite Hno. intros H. injection H as H.
    apply string_append_cancel in H. injection H as H.
    apply Hpos, str_inj, H.
  - destruct Hcase as [Hc| ->]; [congruence|]. cbn [String.eqb].
    intros H. injection H as H. apply Hpos, str_inj, H.
Qed.

Lemma sibling_numbers_differ_witness :
  calc_item_no "roman" motion_a agenda <> calc_item_no "roman" motion_b agenda.
Proof.
  assert (H3 : has_level agenda motions 0) by (apply level_root; reflexivity).
  apply (sibling_numbers_differ "roman" motion_a motion_b agenda 1 1);
    try reflexivity.
  - exact agenda_ids_unique.
  - simpl. auto 10.
  - simpl. auto 10.
  - apply (level_child agenda motion_a motions 3 0); auto.
  - apply (level_child agenda motion_b motions 3 0); auto.
  - discriminate.
  - left. discriminate.
Defined.

End AgendaMore.

(* ------------------------------------------------------------------ *)
(** ** Further properties of the lists of speakers *)

Module SpeakerMore.
Import Utils Speakers SpeakerSpec Samples SpeakerFacts.

(** ** The next speaker *)

Lemma nullable_leb_refl (a : option Z) : nullable_leb a a = true.
Proof. destruct a; simpl; [apply Z.leb_refl|reflexivity]. Qed.

Lemma get_next_speaker_head (item_id : nat) (rows : list Speaker) :
  get_next_speaker item_id rows
  = match coming_speakers_of item_id rows with
    | [] => None
    | next :: _ => Some next
    end.
Proof. reflexivity. Qed.

(** X8.  [get_next_speaker] returns nothing exactly when no entry of the
    item awaits its turn.  What it returns is an entry of the item that
    awaits its turn, and no such entry has a lower weight (an unset weight
    counting as the lowest). *)
Theorem next_speaker_lowest_weight (item_id : nat) (rows : list Speaker) :
  (get_next_speaker item_id rows = None <->
   forall s, In s rows -> item s = item_id -> begin_time s <> None)
  /\ (forall next, get_next_speaker item_id rows = Some next ->
        In next rows /\ item next = item_id /\ begin_time next = None
        /\ forall s, In s rows -> item s = item_id -> begin_time s = None ->
                     nullable_leb (weight next) (weight s) = true).
Proof.
  rewrite get_next_speaker_head.
  destruct (coming_speakers_of_ordered item_id rows) as [Hord Hmem].
  assert (Hcoming : forall s, is_coming s = true <-> begin_time s = None).
  { intros s. unfold is_coming. destruct (begin_time s); simpl;
      split; congruence. }
  destruct (coming_speakers_of item_id rows) as [|next rest] eqn:E.
  - split; [|discriminate]. split; [|reflexivity].
    intros _ s Hs Hi Hb. apply (proj2 (Hmem s)).
    repeat split; auto. apply Hcoming, Hb.
  - split.
    + split; [discriminate|]. intros H. exfalso.
      destruct (proj1 (Hmem next) (or_introl eq_refl)) as (Hin & Hi & Hc).
      apply (H next Hin Hi), Hcoming, Hc.
    + intros s H. injection H as <-.
      destruct (proj1 (Hmem next) (or_introl eq_refl)) as (Hin & Hi & Hc).
      repeat split; auto; [apply Hcoming, Hc|].
      intros s Hs Hsi Hsb.
      assert (Hsin : In s (next :: rest)).
      { apply Hmem. repeat split; auto. apply Hcoming, Hsb. }
      destruct Hsin as [<-|Hsin]; [apply nullable_leb_refl|].
      unfold ordered in Hord. inversion Hord as [|x l Hl Hall]; subst.
      exact (proj1 (Forall_forall _ _) Hall s Hsin).
Qed.

Lemma next_speaker_lowest_weight_witness :
  In (mkSpeaker 8 18 1 None None (Some 1)) full_house
  /\ item (mkSpeaker 8 18 1 None None (Some 1)) = 1%nat
  /\ begin_time (mkSpeaker 8 18 1 None None (Some 1)) = None
  /\ forall s, In s full_house -> item s = 1%nat -> begin_time s = None ->
               nullable_leb (Some 1) (weight s) = true.
Proof.
  exact (proj2 (next_speaker_lowest_weight 1 full_house)
           (mkSpeaker 8 18 1 None None (Some 1)) eq_refl).
Defined.

(** ** Enqueueing, once more *)

(** What a successful [add] returns. *)
Lemma add_success (u : request_user) (item_id : nat) (w w' : World)
  (new : Speaker) :
  add u item_id w = inr (new, w') ->
  exists user_pk,
    u = User user_pk
    /\ new = {| pk := next_pk (speakers w); user := user_pk; item := item_id;
                begin_time := None; end_time := None;
                weight := Some (py_or (aggregate_max
                                  (map weight
                                     (filter (on_item item_id) (speakers w))))
                                  0 + 1) |}
    /\ w' = with_speakers w (speakers w ++ [new]).
Proof.
  run. destruct (existsb _ (speakers w)); [discriminate|].
  destruct u as [user_pk|]; [|discriminate].
  intros H. injection H as <- <-. exists user_pk. repeat split.
Qed.

Lemma weight_below_new (item_id : nat) (rows : list Speaker) (s : Speaker)
  (v : Z) :
  In s rows -> item s = item_id -> weight s = Some v ->
  v < py_or (aggregate_max (map weight (filter (on_item item_id) rows))) 0 + 1.
Proof.
  intros Hin Hi Hw.
  assert (Hv : In (Some v) (map weight (filter (on_item item_id) rows)))
    by (apply in_item_weights; eauto).
  destruct (aggregate_max _) as [m|] eqn:E.
  - apply aggregate_max_some in E as [_ Hmax]. rewrite py_or_zero.
    specialize (Hmax v Hv). lia.
  - exfalso. exact (aggregate_max_none _ E v Hv).
Qed.

(** X9.  The weight given by a successful [add] is strictly above every
    weight carried by an entry of the item, in whatever phase that entry
    is; no entry of the item shares the weight of the new one. *)
Theorem add_weight_above (u : request_user) (item_id : nat) (w w' : World)
  (new : Speaker) :
  add u item_id w = inr (new, w') ->
  exists new_weight,
    weight new = Some new_weight
    /\ forall s v, In s (speakers w) -> item s = item_id ->
                   weight s = Some v -> v < new_weight.
Proof.
  intros H. apply add_success in H as (user_pk & _ & -> & _).
  eexists. split; [reflexivity|].
  intros s v. apply weight_below_new.
Qed.

Lemma add_weight_above_witness :
  exists new_weight,
    Some 5 = Some new_weight
    /\ forall s v, In s (speakers three_phases) -> item s = 1%nat ->
                   weight s = Some v -> v < new_weight.
Proof.
  exact (add_weight_above (User 5) 1 three_phases
           (with_speakers three_phases
              (speakers three_phases
               ++ [mkSpeaker 4 5 1 None None (Some 5)]))
           (mkSpeaker 4 5 1 None None (Some 5)) eq_refl).
Defined.

Lemma filter_item_app_other (f : Speaker -> bool) (j : nat)
  (rows : list Speaker) (new : Speaker) :
  item new <> j ->
  filter f (filter (on_item j) (rows ++ [new]))
  = filter f (filter (on_item j) rows).
Proof.
  intros Hne. rewrite filter_app. cbn [filter]. unfold on_item at 2.
  destruct (Nat.eqb_spec (item new) j); [contradiction|].
  rewrite app_nil_r. reflexivity.
Qed.

(** X10.  A successful [add] puts the new entry at the end of the item's
    coming speakers: the order of those who were waiting is unchanged and
    the new entry comes after all of them.  The old speakers and the actual
    speaker of the item, and the lists of every other item, are unchanged. *)
Theorem add_goes_last (u : request_user) (item_id : nat) (w w' : World)
  (new : Speaker) :
  add u item_id w = inr (new, w') ->
  coming_speakers_of item_id (speakers w')
  = coming_speakers_of item_id (speakers w) ++ [new]
  /\ old_speakers_of item_id (speakers w')
     = old_speakers_of item_id (speakers w)
  /\ speaking_on item_id (speakers w') = speaking_on item_id (speakers w)
  /\ forall j, j <> item_id ->
       coming_speakers_of j (speakers w') = coming_speakers_of j (speakers w)
       /\ old_speakers_of j (speakers w') = old_speakers_of j (speakers w)
       /\ speaking_on j (speakers w') = speaking_on j (speakers w).
Proof.
  intros H. apply add_success in H as (user_pk & _ & Hnew & ->).
  cbn [speakers with_speakers].
  assert (Hitem : item new = item_id) by (rewrite Hnew; reflexivity).
  assert (Hcoming : is_coming new = true) by (rewrite Hnew; reflexivity).
  assert (Hold : is_old new = false) by (rewrite Hnew; reflexivity).
  assert (Hact : is_actual new = false) by (rewrite Hnew; reflexivity).
  split; [|split; [|split]].
  - unfold coming_speakers_of. rewrite !filter_app. cbn [filter].
    unfold on_item at 2. rewrite Hitem, Nat.eqb_refl. cbn [filter].
    rewrite Hcoming. apply OrderByFacts.order_by_app_last.
    intros x Hx. apply filter_In in Hx as [Hx _].
    apply filter_In in Hx as [Hx Hxi]. apply Nat.eqb_eq in Hxi.
    unfold by_weight. destruct (weight x) as [v|] eqn:Hv; [|reflexivity].
    rewrite Hnew. cbn [weight nullable_leb]. apply Z.leb_le.
    pose proof (weight_below_new item_id (speakers w) x v Hx Hxi Hv). lia.
  - unfold old_speakers_of. rewrite !filter_app. cbn [filter].
    unfold on_item at 2. rewrite Hitem, Nat.eqb_refl. cbn [filter].
    rewrite Hold, app_nil_r. reflexivity.
  - unfold speaking_on. rewrite filter_app. cbn [filter].
    rewrite Hact, andb_false_r, app_nil_r. reflexivity.
  - intros j Hj. assert (Hne : item new <> j) by congruence.
    unfold coming_speakers_of, old_speakers_of, speaking_on.
    rewrite !(filter_item_app_other _ j _ new Hne).
    repeat split. rewrite filter_app. cbn [filter].
    rewrite Hact, andb_false_r, app_nil_r. reflexivity.
Qed.

Lemma add_goes_last_witness :
  coming_speakers_of 1
    (speakers three_phases ++ [mkSpeaker 4 5 1 None None (Some 5)])
  = coming_speakers_of 1 (speakers three_phases)
    ++ [mkSpeaker 4 5 1 None None (Some 5)].
Proof.
  exact (proj1 (add_goes_last (User 5) 1 three_phases
           (with_speakers three_phases
              (speakers three_phases
               ++ [mkSpeaker 4 5 1 None None (Some 5)]))
           (mkSpeaker 4 5 1 None None (Some 5)) eq_refl)).
Defined.

Lemma filter_other_keys (k : nat) (rows : list Speaker) :
  (forall s, In s rows -> pk s <> k) ->
  filter (fun s => negb (pk s =? k)%nat) rows = rows.
Proof.
  induction rows as [|r rows IH]; intros H; simpl; [reflexivity|].
  destruct (Nat.eqb_spec (pk r) k) as [E|E].
  - exfalso. apply (H r); [left; reflexivity|exact E].
  - simpl. rewrite IH; [reflexivity|]. intros s Hs. apply H. right. exact Hs.
Qed.

(** X11.  Deleting the entry that a successful [add] has just created gives
    back the speaker table as it was, and no countdown call is made on the
    way. *)
Theorem add_then_delete (u : request_user) (item_id : nat) (w w1 : World)
  (new : Speaker) :
  add u item_id w = inr (new, w1) ->
  exists w2,
    delete new w1 = inr (tt, w2)
    /\ speakers w2 = speakers w /\ countdown w2 = countdown w.
Proof.
  intros H. apply add_success in H as (user_pk & _ & Hnew & ->).
  assert (Hpk : pk new = next_pk (speakers w)) by (rewrite Hnew; reflexivity).
  unfold with_speakers. run. eexists. split; [reflexivity|].
  cbn [speakers countdown]. split; [|reflexivity].
  rewrite filter_app. cbn [filter]. rewrite Nat.eqb_refl. cbn [negb].
  rewrite app_nil_r. apply filter_other_keys.
  intros s Hs. apply pk_le_max in Hs. rewrite Hpk. unfold next_pk. lia.
Qed.

Lemma add_then_delete_witness :
  exists w2,
    delete (mkSpeaker 4 5 1 None None (Some 5))
      (with_speakers three_phases
         (speakers three_phases ++ [mkSpeaker 4 5 1 None None (Some 5)]))
    = inr (tt, w2)
    /\ speakers w2 = speakers three_phases
    /\ countdown w2 = countdown three_phases.
Proof.
  exact (add_then_delete (User 5) 1 three_phases _ _ eq_refl).
Defined.


(** ** Beginning and ending, once more *)

Lemma in_save_row (row : Speaker) (rows : list Speaker) :
  In row (save_row row rows).
Proof.
  induction rows as [|r rows IH]; simpl; [auto|].
  destruct (pk r =? pk row)%nat; simpl; auto.
Qed.

Lemma singleton_of_short {A : Type} (x : A) (l : list A) :
  (List.length l <= 1)%nat -> In x l -> l = [x].
Proof.
  destruct l as [|y [|z l]]; simpl; intros Hlen Hin.
  - contradiction.
  - destruct Hin as [->|[]]. reflexivity.
  - lia.
Qed.

Lemma in_speaking_on (item_id : nat) (rows : list Speaker) (s : Speaker) :
  In s (speaking_on item_id rows) <->
  In s rows /\ item s = item_id /\ is_actual s = true.
Proof.
  unfold speaking_on, on_item.
  rewrite filter_In, andb_true_iff, Nat.eqb_eq. tauto.
Qed.

(** X12.  [begin_speach] raises exactly when several entries of the item
    are speaking, and what it raises then is [MultipleObjectsReturned] of
    the query for the actual speaker. *)
Theorem begin_speach_fails_iff (couple : bool) (self : Speaker) (w : World) :
  ((exists e, begin_speach couple self w = inl e) <->
   (2 <= List.length (speaking_on (item self) (speakers w)))%nat)
  /\ (forall e, begin_speach couple self w = inl e ->
                e = MultipleObjectsReturned).
Proof.
  destruct (speaking_on (item self) (speakers w)) as [|a [|b rest]] eqn:E;
    unfold speaking_on in E.
  - rewrite (begin_speach_none couple self w E). simpl.
    split; [split; [intros [e H]; discriminate|lia]|discriminate].
  - rewrite (begin_speach_got couple self a w E). simpl.
    split; [split; [intros [e H]; discriminate|lia]|discriminate].
  - rewrite (begin_speach_multiple couple self a b rest w E). simpl.
    split; [split; [lia|eauto]|congruence].
Qed.

Lemma begin_speach_fails_iff_witness :
  exists e, begin_speach true carl_waits two_speaking = inl e.
Proof.
  apply (proj1 (begin_speach_fails_iff true carl_waits two_speaking)).
  simpl. lia.
Defined.

(** What a [begin_speach] that finds at most one entry speaking does. *)
Lemma begin_speach_outcome (couple : bool) (self : Speaker) (w : World) :
  pk_unique w ->
  (List.length (speaking_on (item self) (speakers w)) <= 1)%nat ->
  exists t w',
    begin_speach couple self w = inr (set_begin self (Some t), w')
    /\ pk_unique w'
    /\ In (set_begin self (Some t)) (speakers w')
    /\ lookup (pk self) (speakers w') = Some (set_begin self (Some t))
    /\ (List.length (speaking_on (item self) (speakers w')) <= 1)%nat
    /\ clock w' = clock w
    /\ countdown w'
       = countdown w
         ++ match speaking_on (item self) (speakers w) with
            | [] => []
            | _ :: _ => stop_calls couple
            end
         ++ begin_calls couple.
Proof.
  intros Hnd Hone.
  pose proof (step_invariant (item self) (BeginSpeech couple self) w Hnd Hone)
    as [Hnd' Hone'].
  cbn [step] in Hnd', Hone'. unfold pk_unique, at_most_one_speaking in *.
  destruct (speaking_on (item self) (speakers w)) as [|a [|b rest]] eqn:E;
    unfold speaking_on in E; [| |simpl in Hone; lia].
  - rewrite (begin_speach_none couple self w E) in *.
    cbn [world_after speakers] in *.
    do 2 eexists. split; [reflexivity|]. cbn [speakers countdown clock].
    repeat split; auto.
    + apply in_save_row.
    + apply (lookup_save_row_same (set_begin self _)).
  - rewrite (begin_speach_got couple self a w E) in *.
    cbn [world_after speakers] in *.
    do 2 eexists. split; [reflexivity|]. cbn [speakers countdown clock].
    repeat split; auto.
    + apply in_save_row.
    + apply (lookup_save_row_same (set_begin self _)).
Qed.

(** X13.  On a table with distinct keys where at most one entry of the
    item is speaking, [begin_speach] on an entry without end time does not
    raise and leaves that entry as the one entry of the item that is
    speaking.  When the countdown is coupled, stop is called only if an
    entry was speaking before, and reset and start are called in any case;
    when it is not coupled, nothing is called. *)
Theorem begin_speach_sole_speaker (couple : bool) (self : Speaker)
  (w : World) :
  pk_unique w ->
  (List.length (speaking_on (item self) (speakers w)) <= 1)%nat ->
  end_time self = None ->
  exists self' w',
    begin_speach couple self w = inr (self', w')
    /\ speaking_on (item self) (speakers w') = [self']
    /\ countdown w'
       = countdown w
         ++ (if couple
             then match speaking_on (item self) (speakers w) with
                  | [] => []
                  | _ :: _ => [stop_countdown]
                  end ++ [reset_countdown; start_countdown]
             else []).
Proof.
  intros Hnd Hone Hend.
  destruct (begin_speach_outcome couple self w Hnd Hone)
    as (t & w' & Hrun & _ & Hin & _ & Hone' & _ & Hcalls).
  exists (set_begin self (Some t)), w'. split; [exact Hrun|]. split.
  - apply singleton_of_short; [exact Hone'|].
    apply in_speaking_on. repeat split; auto.
    unfold is_actual. cbn. rewrite Hend. reflexivity.
  - rewrite Hcalls. unfold stop_calls, begin_calls.
    destruct couple; [reflexivity|].
    destruct (speaking_on _ _); reflexivity.
Qed.

Lemma begin_speach_sole_speaker_witness :
  exists self' w',
    begin_speach true carl_waits nobody_speaking = inr (self', w')
    /\ speaking_on 1 (speakers w') = [self']
    /\ countdown w' = [reset_countdown; start_countdown].
Proof.
  apply (begin_speach_sole_speaker true carl_waits nobody_speaking).
  - unfold pk_unique. simpl.
    repeat (constructor; [simpl; intuition discriminate|]). constructor.
  - simpl. lia.
  - reflexivity.
Defined.

(** X14.  Beginning a speech and then ending it, on a table with distinct
    keys where at most one entry of the item was speaking: neither call
    raises, nobody is speaking on the item afterwards, the row of the entry
    has both time stamps and no weight, and the last countdown call, when
    the countdown is coupled, is stop. *)
Theorem begin_then_end (couple : bool) (self : Speaker) (w : World) :
  pk_unique w ->
  (List.length (speaking_on (item self) (speakers w)) <= 1)%nat ->
  end_time self = None ->
  exists s1 w1 s2 w2,
    begin_speach couple self w = inr (s1, w1)
    /\ end_speach couple s1 w1 = inr (s2, w2)
    /\ speaking_on (item self) (speakers w2) = []
    /\ lookup (pk self) (speakers w2) = Some s2
    /\ is_old s2 = true /\ weight s2 = None
    /\ countdown w2 = countdown w1 ++ (if couple then [stop_countdown] else []).
Proof.
  intros Hnd Hone Hend.
  destruct (begin_speach_outcome couple self w Hnd Hone)
    as (t & w1 & Hrun & Hnd1 & Hin & _ & Hone1 & _ & _).
  set (s1 := set_begin self (Some t)) in *.
  assert (Hs1 : counts (item self) s1 = 1%nat).
  { unfold counts, on_item, is_actual. cbn. rewrite Hend, Nat.eqb_refl.
    reflexivity. }
  assert (Hlist : speaking_on (item self) (speakers w1) = [s1]).
  { apply singleton_of_short; [exact Hone1|].
    apply in_speaking_on. repeat split; auto.
    unfold is_actual. cbn. rewrite Hend. reflexivity. }
  exists s1, w1. rewrite end_speach_eq. do 2 eexists.
  split; [exact Hrun|]. split; [reflexivity|]. cbn [speakers countdown].
  set (s2 := set_end_time s1 (Some (clock w1 (clock_reads w1)))).
  split; [|split; [|split; [|split]]].
  - pose proof (speaking_on_save_row_replace (item self) s2 s1 (speakers w1)
                  Hnd1 Hin eq_refl) as H.
    unfold s2 at 2 in H. rewrite counts_ended, Hs1, Hlist in H.
    simpl in H.
    destruct (speaking_on (item self) (save_row s2 (speakers w1)));
      [reflexivity|simpl in H; lia].
  - apply (lookup_save_row_same s2).
  - reflexivity.
  - reflexivity.
  - destruct couple; reflexivity.
Qed.

Lemma begin_then_end_witness :
  exists s1 w1 s2 w2,
    begin_speach true carl_waits three_phases = inr (s1, w1)
    /\ end_speach true s1 w1 = inr (s2, w2)
    /\ speaking_on 1 (speakers w2) = []
    /\ lookup 3 (speakers w2) = Some s2
    /\ is_old s2 = true /\ weight s2 = None
    /\ countdown w2 = countdown w1 ++ [stop_countdown].
Proof.
  apply (begin_then_end true carl_waits three_phases).
  - unfold pk_unique. simpl.
    repeat (constructor; [simpl; intuition discriminate|]). constructor.
  - simpl. lia.
  - reflexivity.
Defined.

(** X15.  [end_speach] on an entry that still awaits its turn does not take
    it off the waiting list: the row keeps its unset begin time and its
    weight.  A later [begin_speach] on that entry, if it does not raise,
    leaves it with both time stamps set: the entry counts among the old
    speakers without ever having been the actual speaker. *)
Theorem end_speach_on_coming (couple : bool) (self : Speaker) (w : World) :
  begin_time self = None ->
  exists s1 w1,
    end_speach couple self w = inr (s1, w1)
    /\ lookup (pk self) (speakers w1) = Some s1
    /\ is_coming s1 = true /\ weight s1 = weight self
    /\ forall couple' s2 w2,
         begin_speach couple' s1 w1 = inr (s2, w2) ->
         lookup (pk self) (speakers w2) = Some s2
         /\ is_old s2 = true /\ is_actual s2 = false.
Proof.
  intros Hb. rewrite end_speach_eq. do 2 eexists.
  split; [reflexivity|]. cbn [speakers].
  set (s1 := set_end_time self (Some (clock w (clock_reads w)))).
  set (w1 := {| speakers := save_row s1 (speakers w);
                countdown := countdown w ++ stop_calls couple;
                clock := clock w; clock_reads := S (clock_reads w) |}).
  split; [apply (lookup_save_row_same s1)|].
  split; [unfold is_coming; cbn; rewrite Hb; reflexivity|].
  split; [reflexivity|].
  intros couple' s2 w2 Hrun.
  destruct (speaking_on (item s1) (speakers w1)) as [|a [|b rest]] eqn:E;
    unfold speaking_on in E.
  - rewrite (begin_speach_none couple' s1 w1 E) in Hrun.
    injection Hrun as <- <-. cbn [speakers].
    split; [apply (lookup_save_row_same (set_begin s1 _))|].
    split; reflexivity.
  - rewrite (begin_speach_got couple' s1 a w1 E) in Hrun.
    injection Hrun as <- <-. cbn [speakers].
    split; [apply (lookup_save_row_same (set_begin s1 _))|].
    split; reflexivity.
  - rewrite (begin_speach_multiple couple' s1 a b rest w1 E) in Hrun.
    discriminate.
Qed.

Lemma end_speach_on_coming_witness :
  exists s1 w1,
    end_speach true carl_waits three_phases = inr (s1, w1)
    /\ lookup 3 (speakers w1) = Some s1
    /\ is_coming s1 = true /\ weight s1 = Some 4
    /\ forall couple' s2 w2,
         begin_speach couple' s1 w1 = inr (s2, w2) ->
         lookup 3 (speakers w2) = Some s2
         /\ is_old s2 = true /\ is_actual s2 = false.
Proof.
  apply (end_speach_on_coming true carl_waits three_phases). reflexivity.
Defined.

(** ** The list of speakers, once more *)

Lemma filter_actual_on_item (item_id : nat) (rows : list Speaker) :
  filter is_actual (filter (on_item item_id) rows) = speaking_on item_id rows.
Proof.
  unfold speaking_on. induction rows as [|r rows IH]; simpl; [reflexivity|].
  destruct (on_item item_id r); simpl; [|exact IH].
  destruct (is_actual r); [f_equal|]; exact IH.
Qed.

(** The result of [get_list_of_speakers], written out. *)
Lemma get_list_of_speakers_form (item_id : nat) (old coming : option Z)
  (rows : list Speaker) (l : list speaker_dict) :
  get_list_of_speakers item_id old coming rows = inr l ->
  (List.length (speaking_on item_id rows) <= 1)%nat
  /\ l = old_speaker_dicts
           (count_or_all old (old_speakers_of item_id rows)) 0
           (skipn (Z.to_nat
                     (Z.max 0 (len (old_speakers_of item_id rows)
                               - count_or_all old
                                   (old_speakers_of item_id rows))))
                  (old_speakers_of item_id rows))
         ++ map actual_speaker_dict (speaking_on item_id rows)
         ++ coming_speaker_dicts
              (count_or_all coming (coming_speakers_of item_id rows)) 0
              (firstn (Z.to_nat
                         (Z.max 0 (count_or_all coming
                                     (coming_speakers_of item_id rows))))
                      (coming_speakers_of item_id rows)).
Proof.
  unfold get_list_of_speakers. rewrite filter_actual_on_item.
  fold (old_speakers_of item_id rows). fold (coming_speakers_of item_id rows).
  fold (count_or_all old (old_speakers_of item_id rows)).
  fold (count_or_all coming (coming_speakers_of item_id rows)).
  destruct (speaking_on item_id rows) as [|a [|b rest]]; simpl;
    intros H; [| |discriminate]; injection H as <-; split; auto.
Qed.

Lemma map_speaker_old (count number : Z) (l : list Speaker) :
  map speaker (old_speaker_dicts count number l) = l.
Proof.
  revert number. induction l as [|s l IH]; intros number; simpl;
    [reflexivity|]. rewrite IH. reflexivity.
Qed.

Lemma map_speaker_coming (count number : Z) (l : list Speaker) :
  map speaker (coming_speaker_dicts count number l) = l.
Proof.
  revert number. induction l as [|s l IH]; intros number; simpl;
    [reflexivity|]. rewrite IH. reflexivity.
Qed.

Lemma map_speaker_actual (l : list Speaker) :
  map speaker (map actual_speaker_dict l) = l.
Proof. rewrite map_map. apply map_id. Qed.

Lemma in_skipn {A : Type} (n : nat) (l : list A) (x : A) :
  In x (skipn n l) -> In x l.
Proof.
  revert l. induction n as [|n IH]; intros l; simpl; [auto|].
  destruct l as [|y l]; [auto|]. intros H. right. apply IH, H.
Qed.

Lemma in_firstn {A : Type} (n : nat) (l : list A) (x : A) :
  In x (firstn n l) -> In x l.
Proof.
  revert l. induction n as [|n IH]; intros l; simpl; [tauto|].
  destruct l as [|y l]; [auto|]. intros [->|H]; [left|right]; auto.
Qed.

(** X16.  Every entry of a result of [get_list_of_speakers] is a row of
    the table that belongs to the item asked for, and its type agrees with
    its time stamps: old speakers have both, the actual speaker has a begin
    time only, coming speakers have no begin time. *)
Theorem list_entries_of_item (item_id : nat) (old coming : option Z)
  (rows : list Speaker) (l : list speaker_dict) (d : speaker_dict) :
  get_list_of_speakers item_id old coming rows = inr l -> In d l ->
  In (speaker d) rows /\ item (speaker d) = item_id
  /\ in_phase (type d) (speaker d) = true.
Proof.
  intros H Hd. apply get_list_of_speakers_form in H as [_ ->].
  destruct (old_speakers_of_ordered item_id rows) as [_ Hold].
  destruct (coming_speakers_of_ordered item_id rows) as [_ Hcoming].
  apply in_app_or in Hd as [Hd|Hd]; [|apply in_app_or in Hd as [Hd|Hd]].
  - apply in_old_speaker_dicts in Hd as (_ & _ & _ & -> & _ & _ & Hin).
    apply in_skipn, Hold in Hin. exact Hin.
  - apply in_map_iff in Hd as (s & <- & Hs).
    apply in_speaking_on in Hs. exact Hs.
  - apply in_coming_speaker_dicts in Hd as (_ & _ & _ & -> & _ & _ & Hin).
    apply in_firstn, Hcoming in Hin. exact Hin.
Qed.

Lemma list_entries_of_item_witness :
  In carl_waits (speakers three_phases) /\ item carl_waits = 1%nat
  /\ in_phase coming_speaker carl_waits = true.
Proof.
  apply (list_entries_of_item 1 (Some 3) (Some 5) (speakers three_phases)
           [ {| prefix := PyStr "-3"; speaker := bert_spoke;
                type := old_speaker;
                first_in_group := true; last_in_group := false |};
             {| prefix := PyStr "0"; speaker := anna_speaks;
                type := actual_speaker;
                first_in_group := true; last_in_group := true |};
             {| prefix := PyInt 1; speaker := carl_waits;
                type := coming_speaker;
                first_in_group := true; last_in_group := false |} ]
           {| prefix := PyInt 1; speaker := carl_waits;
              type := coming_speaker;
              first_in_group := true; last_in_group := false |}).
  - reflexivity.
  - simpl. auto.
Defined.

Lemma phases_partition (q : list Speaker) :
  Permutation (filter is_old q ++ filter is_actual q ++ filter is_coming q) q.
Proof.
  induction q as [|s q IH]; simpl; [constructor|].
  unfold is_old, is_actual, is_coming, is_none.
  destruct (begin_time s), (end_time s); simpl.
  - constructor. exact IH.
  - symmetry. apply Permutation_cons_app. symmetry. exact IH.
  - symmetry. rewrite app_assoc. apply Permutation_cons_app.
    rewrite <- app_assoc. symmetry. exact IH.
  - symmetry. rewrite app_assoc. apply Permutation_cons_app.
    rewrite <- app_assoc. symmetry. exact IH.
Qed.

(** X17.  Called without counts, [get_list_of_speakers] shows every entry
    of the item exactly once: the old speakers by end time, then the actual
    speaker, then the coming speakers by weight. *)
Theorem list_without_counts_complete (item_id : nat) (rows : list Speaker)
  (l : list speaker_dict) :
  get_list_of_speakers item_id None None rows = inr l ->
  map speaker l
  = old_speakers_of item_id rows ++ speaking_on item_id rows
    ++ coming_speakers_of item_id rows
  /\ Permutation (map speaker l) (filter (on_item item_id) rows).
Proof.
  intros H. apply get_list_of_speakers_form in H as [_ ->].
  assert (E : map speaker
                (old_speaker_dicts
                   (count_or_all None (old_speakers_of item_id rows)) 0
                   (skipn (Z.to_nat
                             (Z.max 0 (len (old_speakers_of item_id rows)
                                       - count_or_all None
                                           (old_speakers_of item_id rows))))
                          (old_speakers_of item_id rows))
                 ++ map actual_speaker_dict (speaking_on item_id rows)
                 ++ coming_speaker_dicts
                      (count_or_all None (coming_speakers_of item_id rows)) 0
                      (firstn (Z.to_nat
                                 (Z.max 0 (count_or_all None
                                             (coming_speakers_of item_id rows))))
                              (coming_speakers_of item_id rows)))
              = old_speakers_of item_id rows ++ speaking_on item_id rows
                ++ coming_speakers_of item_id rows).
  { rewrite !map_app, map_speaker_old, map_speaker_actual, map_speaker_coming.
    cbn [count_or_all]. rewrite Z.sub_diag. cbn [Z.max Z.to_nat skipn].
    replace (Z.to_nat (Z.max 0 (len (coming_speakers_of item_id rows))))
      with (List.length (coming_speakers_of item_id rows))
      by (unfold len; lia).
    rewrite firstn_all. reflexivity. }
  split; [exact E|]. rewrite E.
  rewrite <- (phases_partition (filter (on_item item_id) rows)).
  unfold old_speakers_of, coming_speakers_of.
  rewrite <- filter_actual_on_item.
  apply Permutation_app; [apply OrderByFacts.order_by_permutation|].
  apply Permutation_app; [reflexivity|].
  apply OrderByFacts.order_by_permutation.
Qed.

Lemma list_without_counts_complete_witness :
  Permutation
    (map speaker
       [ actual_speaker_dict anna_speaks;
         {| prefix := PyInt 1; speaker := carl_waits; type := coming_speaker;
            first_in_group := true; last_in_group := true |} ])
    (filter (on_item 1) [anna_speaks; carl_waits]).
Proof.
  exact (proj2 (list_without_counts_complete 1 [anna_speaks; carl_waits]
                  _ eq_refl)).
Defined.

Lemma group_of_old (t : speaker_type) (count number : Z) (l : list Speaker) :
  group_of t (old_speaker_dicts count number l)
  = if speaker_type_eqb old_speaker t
    then old_speaker_dicts count number l else [].
Proof.
  unfold group_of. revert number.
  induction l as [|s l IH]; intros number;
    [destruct t; reflexivity|].
  cbn [old_speaker_dicts filter type]. rewrite IH.
  destruct t; reflexivity.
Qed.

Lemma group_of_coming (t : speaker_type) (count number : Z)
  (l : list Speaker) :
  group_of t (coming_speaker_dicts count number l)
  = if speaker_type_eqb coming_speaker t
    then coming_speaker_dicts count number l else [].
Proof.
  unfold group_of. revert number.
  induction l as [|s l IH]; intros number;
    [destruct t; reflexivity|].
  cbn [coming_speaker_dicts filter type]. rewrite IH.
  destruct t; reflexivity.
Qed.

Lemma group_of_actual (t : speaker_type) (l : list Speaker) :
  group_of t (map actual_speaker_dict l)
  = if speaker_type_eqb actual_speaker t
    then map actual_speaker_dict l else [].
Proof.
  unfold group_of. induction l as [|s l IH]; [destruct t; reflexivity|].
  cbn [map filter actual_speaker_dict type]. rewrite IH.
  destruct t; reflexivity.
Qed.

Lemma group_of_app (t : speaker_type) (a b : list speaker_dict) :
  group_of t (a ++ b) = group_of t a ++ group_of t b.
Proof. apply filter_app. Qed.

Lemma nth_error_length {A : Type} (l : list A) (i : nat) (x : A) :
  nth_error l i = Some x -> (i < List.length l)%nat.
Proof. intros H. apply nth_error_Some. congruence. Qed.

(** X18.  In every result of [get_list_of_speakers], whatever the counts,
    the marks are never misplaced: within each of the three groups the
    entry marked as first is the first one, and it is always marked; an
    entry marked as last is the last one of its group. *)
Theorem marks_never_misplaced (item_id : nat) (old coming : option Z)
  (rows : list Speaker) (l : list speaker_dict) (t : speaker_type)
  (i : nat) (d : speaker_dict) :
  get_list_of_speakers item_id old coming rows = inr l ->
  nth_error (group_of t l) i = Some d ->
  first_in_group d = (i =? 0)%nat
  /\ (last_in_group d = true -> S i = List.length (group_of t l)).
Proof.
  intros H Hd. apply get_list_of_speakers_form in H as [Hone ->].
  rewrite !group_of_app, group_of_old, group_of_actual, group_of_coming in *.
  set (oc := count_or_all old (old_speakers_of item_id rows)) in *.
  set (cc := count_or_all coming (coming_speakers_of item_id rows)) in *.
  set (window := skipn _ (old_speakers_of item_id rows)) in *.
  set (leading := firstn _ (coming_speakers_of item_id rows)) in *.
  assert (Hwin : len window <= Z.max 0 oc) by apply old_window_length.
  assert (Hlead : len leading <= Z.max 0 cc) by apply coming_window_length.
  unfold len in *.
  destruct t; cbn [speaker_type_eqb app] in *; rewrite ?app_nil_r in *.
  - pose proof (nth_error_length _ _ _ Hd) as Hi.
    rewrite length_old_speaker_dicts in *.
    apply nth_old_speaker_dicts in Hd as (_ & _ & _ & -> & ->).
    split; [destruct i; reflexivity|].
    rewrite Z.add_0_l, Z.eqb_eq. lia.
  - destruct (speaking_on item_id rows) as [|a [|b rest]];
      [destruct i; discriminate| |simpl in Hone; lia].
    destruct i as [|[|i]]; [|discriminate|discriminate].
    injection Hd as <-. split; reflexivity.
  - pose proof (nth_error_length _ _ _ Hd) as Hi.
    rewrite length_coming_speaker_dicts in *.
    apply nth_coming_speaker_dicts in Hd as (_ & _ & _ & -> & ->).
    split; [destruct i; reflexivity|].
    rewrite Z.add_0_l, Z.eqb_eq. lia.
Qed.

Lemma marks_never_misplaced_witness :
  first_in_group
    {| prefix := PyStr "-3"; speaker := bert_spoke; type := old_speaker;
       first_in_group := true; last_in_group := false |}
  = (0 =? 0)%nat
  /\ (last_in_group
        {| prefix := PyStr "-3"; speaker := bert_spoke; type := old_speaker;
           first_in_group := true; last_in_group := false |} = true ->
      1%nat = 1%nat).
Proof.
  exact (marks_never_misplaced 1 (Some 3) (Some 5) (speakers three_phases)
           _ old_speaker 0 _ eq_refl eq_refl).
Defined.

(** X19.  With both counts given, [get_list_of_speakers] returns at most
    [old_speakers_count] old speakers, one actual speaker and
    [coming_speakers_count] coming speakers, a negative count standing for
    none. *)
Theorem list_length_bound (item_id : nat) (c_old c_coming : Z)
  (rows : list Speaker) (l : list speaker_dict) :
  get_list_of_speakers item_id (Some c_old) (Some c_coming) rows = inr l ->
  len (group_of old_speaker l) <= Z.max 0 c_old
  /\ len (group_of actual_speaker l) <= 1
  /\ len (group_of coming_speaker l) <= Z.max 0 c_coming
  /\ len l <= Z.max 0 c_old + 1 + Z.max 0 c_coming.
Proof.
  intros H. apply get_list_of_speakers_form in H as [Hone ->].
  cbn [count_or_all].
  set (window := skipn _ (old_speakers_of item_id rows)).
  set (leading := firstn _ (coming_speakers_of item_id rows)).
  assert (Hwin : len window <= Z.max 0 c_old) by apply old_window_length.
  assert (Hlead : len leading <= Z.max 0 c_coming)
    by apply coming_window_length.
  rewrite !group_of_app, !group_of_old, !group_of_actual, !group_of_coming.
  cbn [speaker_type_eqb app]. rewrite ?app_nil_r.
  unfold len in *.
  rewrite !length_app, !length_map, !length_old_speaker_dicts,
    !length_coming_speaker_dicts.
  repeat split; lia.
Qed.

Lemma list_length_bound_witness :
  len (group_of old_speaker
         [actual_speaker_dict (mkSpeaker 6 16 1 (Some 51) None None)])
  <= Z.max 0 (-2).
Proof.
  exact (proj1 (list_length_bound 1 (-2) (-1) full_house _ eq_refl)).
Defined.

Lemma nth_error_firstn_head {A : Type} (n : nat) (l : list A) (x : A) :
  nth_error (firstn n l) 0 = Some x -> exists rest, l = x :: rest.
Proof.
  destruct n as [|n], l as [|y l]; simpl; try discriminate.
  intros H. injection H as <-. eauto.
Qed.

(** X20.  The entry that a result of [get_list_of_speakers] shows with the
    prefix 1 is the one that [get_next_speaker] returns; and when the count
    of coming speakers is unset or at least 1, the next speaker, if there
    is one, is shown with the prefix 1. *)
Theorem prefix_one_is_next_speaker (item_id : nat) (old coming : option Z)
  (rows : list Speaker) (l : list speaker_dict) :
  get_list_of_speakers item_id old coming rows = inr l ->
  (forall d, In d l -> prefix d = PyInt 1 ->
             get_next_speaker item_id rows = Some (speaker d))
  /\ ((forall c, coming = Some c -> 1 <= c) ->
      forall next, get_next_speaker item_id rows = Some next ->
        exists d, In d l /\ prefix d = PyInt 1 /\ speaker d = next).
Proof.
  intros H. apply get_list_of_speakers_form in H as [_ ->].
  rewrite get_next_speaker_head. split.
  - intros d Hd Hp.
    apply in_app_or in Hd as [Hd|Hd]; [|apply in_app_or in Hd as [Hd|Hd]].
    + apply in_old_speaker_dicts in Hd as (k & _ & Hp' & _). congruence.
    + apply in_map_iff in Hd as (s & <- & _). discriminate.
    + apply In_nth_error in Hd as [i Hi].
      apply nth_coming_speaker_dicts in Hi as (Hnth & Hp' & _).
      assert (i = O) by (rewrite Hp in Hp'; injection Hp'; lia). subst i.
      apply nth_error_firstn_head in Hnth as [rest ->]. reflexivity.
  - intros Hc next Hnext.
    destruct (coming_speakers_of item_id rows) as [|s rest] eqn:E;
      [discriminate|]. injection Hnext as ->.
    set (cc := count_or_all coming (next :: rest)).
    assert (Hcc : 1 <= cc).
    { unfold cc. destruct coming as [c|]; cbn [count_or_all];
        [apply Hc; reflexivity|]. unfold len. simpl. lia. }
    destruct (Z.to_nat (Z.max 0 cc)) as [|n] eqn:En; [lia|].
    cbn [firstn coming_speaker_dicts].
    eexists. split.
    + apply in_or_app. right. apply in_or_app. right. left. reflexivity.
    + split; reflexivity.
Qed.

Lemma prefix_one_is_next_speaker_witness :
  exists d,
    In d [ actual_speaker_dict anna_speaks;
           {| prefix := PyInt 1; speaker := carl_waits;
              type := coming_speaker;
              first_in_group := true; last_in_group := true |} ]
    /\ prefix d = PyInt 1 /\ speaker d = carl_waits.
Proof.
  refine (proj2 (prefix_one_is_next_speaker 1 None None
                   [anna_speaks; carl_waits] _ eq_refl) _ carl_waits eq_refl).
  intros c Hc. discriminate.
Defined.

(** X23.  The lemma on counts within the groups, on the sample table with
    five old speakers and three coming speakers. *)
Lemma list_of_speakers_within_groups_witness :
  exists olds actuals comings,
    get_list_of_speakers 1 (Some 2) None full_house
    = inr (olds ++ actuals ++ comings)
    /\ len olds = 2 /\ len comings = 3.
Proof.
  destruct (list_of_speakers_within_groups 1 (Some 2) None full_house)
    as (olds & actuals & comings & Hrun & Ho & _ & _ & _ & _ & _ & Hc & _).
  - simpl. lia.
  - intros c Hc. injection Hc as <-. vm_compute. split; discriminate.
  - intros c Hc. discriminate.
  - exists olds, actuals, comings. split; [exact Hrun|].
    split; [apply Ho; reflexivity|].
    rewrite (Hc eq_refl). reflexivity.
Defined.

(** X22.  [end_speach] changes no row but the one with the key of the
    entry it is called on, and [begin_speach] none but that one and the row
    of the entry that was speaking on the item: every other row of the
    table, of this item or of another, is found unchanged afterwards. *)
Theorem other_rows_untouched (couple : bool) (self : Speaker) (w : World)
  (k : nat) :
  k <> pk self ->
  (forall s' w', end_speach couple self w = inr (s', w') ->
                 lookup k (speakers w') = lookup k (speakers w))
  /\ ((forall a, In a (speaking_on (item self) (speakers w)) -> k <> pk a) ->
      forall s' w', begin_speach couple self w = inr (s', w') ->
                    lookup k (speakers w') = lookup k (speakers w)).
Proof.
  intros Hk. split.
  - intros s' w'. rewrite end_speach_eq. intros H. injection H as _ <-.
    cbn [speakers]. apply lookup_save_row_other. cbn. congruence.
  - intros Hact s' w' H.
    destruct (speaking_on (item self) (speakers w)) as [|a [|b rest]] eqn:E;
      unfold speaking_on in E.
    + rewrite (begin_speach_none couple self w E) in H.
      injection H as _ <-. cbn [speakers].
      apply lookup_save_row_other. cbn. congruence.
    + rewrite (begin_speach_got couple self a w E) in H.
      injection H as _ <-. cbn [speakers].
      rewrite lookup_save_row_other by (cbn; congruence).
      apply lookup_save_row_other. cbn.
      specialize (Hact a (or_introl eq_refl)). congruence.
    + rewrite (begin_speach_multiple couple self a b rest w E) in H.
      discriminate.
Qed.

Lemma other_rows_untouched_witness :
  exists s' w',
    begin_speach true carl_waits three_phases = inr (s', w')
    /\ lookup 2 (speakers w') = lookup 2 (speakers three_phases).
Proof.
  do 2 eexists. split.
  - apply (begin_speach_got true carl_waits anna_speaks three_phases eq_refl).
  - refine (proj2 (other_rows_untouched true carl_waits three_phases 2 _) _
              _ _ (begin_speach_got true carl_waits anna_speaks three_phases
                     eq_refl)).
    + discriminate.
    + intros a Ha. simpl in Ha. destruct Ha as [<-|[]]. discriminate.
Defined.

End SpeakerMore.
